(** * The TensorFlow data pipeline of [TFDataPipeline.py]

    A shallow embedding of the stages of the pipeline: the [DatasetReader]
    loop, the chunking queue runner, the batching queue, the feed-dict data
    provider and the queue data provider, with the properties of the
    design document stated over them.

    Conventions.  TensorFlow [int32] scalars and Python integers are
    integers of [Z]; the sizes involved (sequence lengths, member counts)
    stay far below the 32-bit range.  A TensorFlow queue is the list of
    its elements, oldest first, and a producer never waits for room in
    it.  A graph-resident [tf.while_loop] is a recursive function, on the
    consumed input where the loop is driven by a queue, and on explicit
    fuel where it is driven by a counter.  The branches of a [tf.cond] are
    read as the branches of a conditional, in the order in which the
    source writes them.  Each loop is followed on its own, as the one
    thread that runs it. *)

From Stdlib Require Import ZArith Lia List Ascii String.
From stdpp Require Import base tactics option list gmap strings pretty.

Open Scope Z_scope.

(** ** The batching queue: [TFBatchingQueue] *)

Module Batcher.

Section Batcher.

(** A member is what [data_queues.make_dequeue_op ()] yields.  The
    batching queue reads two things of it: [v["epoch_end"]], and the
    extent of the default input along its time axis. *)
Context {member : Type}.
Variable epoch_end : member -> bool.
Variable seq_len : member -> Z.

Variable batch_size : Z.
Variable max_seqs : Z.

(** The two variables [_cur_batch_num] and [_cur_max_seq_len], the queue
    of batch sizes [_tf_batch_nums], and the queue of members
    [_tf_out_queue]. *)
Record state : Type := State {
  cur_batch_num : Z;
  cur_max_seq_len : Z;
  tf_batch_nums : list Z;
  tf_out_queue : list member
}.

(** [tf.variables_initializer], with both queues empty. *)
Definition init : state :=
  State 0 0 [] [].

(** [enqueue_cur] inside [_make_enqueue_op]. *)
Definition enqueue_cur (st : state) : state :=
  State 0 0 (tf_batch_nums st ++ [cur_batch_num st]) (tf_out_queue st).

(** [_make_enqueue_op], for the dequeued member [v]. *)
Definition make_enqueue_op (v : member) (st : state) : bool * state :=
  let stop := epoch_end v in
  let st :=
    State (cur_batch_num st + (if stop then 0 else 1)) (cur_max_seq_len st)
          (tf_batch_nums st) (tf_out_queue st) in
  let st :=
    State (cur_batch_num st) (Z.max (cur_max_seq_len st) (seq_len v))
          (tf_batch_nums st) (tf_out_queue st) in
  let st :=
    if stop then enqueue_cur st
    else if max_seqs <=? cur_batch_num st then enqueue_cur st
    else if (2 <=? cur_batch_num st)
            && (batch_size <? cur_max_seq_len st * cur_batch_num st)
    then State 1 (seq_len v)
               (tf_batch_nums st ++ [cur_batch_num st - 1]) (tf_out_queue st)
    else st in
  (stop, State (cur_batch_num st) (cur_max_seq_len st)
               (tf_batch_nums st) (tf_out_queue st ++ [v])).

(** [_make_enqueue_loop_op]: the loop runs the enqueue op on the members
    it dequeues until one of them is an epoch end; it returns the state
    and the members it did not consume. *)
Fixpoint make_enqueue_loop_op (input : list member) (st : state)
  : state * list member :=
  match input with
  | [] => (st, [])
  | v :: rest =>
      let '(stop, st') := make_enqueue_op v st in
      if stop then (st', rest) else make_enqueue_loop_op rest st'
  end.

(** [loop]: [while True: tf_session.run(self._tf_enqueue_loop_op)].  Each
    run starts where the last one stopped, so over the consumed input
    the loop applies the enqueue op to every member in turn. *)
Definition loop (input : list member) (st : state) : state :=
  fold_left (fun st v => snd (make_enqueue_op v st)) input st.

(** The consumer side: [_tf_out_queue.dequeue_up_to(n=_tf_batch_nums.dequeue())].
    A batch is the list of its members, in queue order; the padding and the
    stacking along the batch axis are the work of the padding queue. *)
Fixpoint dequeue_batches (nums : list Z) (queue : list member)
  : list (list member) :=
  match nums with
  | [] => []
  | n :: nums' =>
      take (Z.to_nat n) queue :: dequeue_batches nums' (drop (Z.to_nat n) queue)
  end.

Definition batches (st : state) : list (list member) :=
  dequeue_batches (tf_batch_nums st) (tf_out_queue st).

(** How many members the batch sizes [nums] take out of the member queue,
    and the members of a state that no batch size covers yet. *)
Definition consumed (nums : list Z) : nat :=
  foldr (fun n acc => (Z.to_nat n + acc)%nat) 0%nat nums.

Definition pending (st : state) : list member :=
  drop (consumed (tf_batch_nums st)) (tf_out_queue st).

(** Every member of the member queue is covered by a batch size or counted
    as pending: what holds while no epoch end has gone into the queue. *)
Definition accounted (st : state) : Prop :=
  (consumed (tf_batch_nums st) + Z.to_nat (cur_batch_num st))%nat
    = length (tf_out_queue st)
  /\ 0 <= cur_batch_num st.

(** Member count and maximal member length of a batch. *)
Definition member_count (b : list member) : Z := Z.of_nat (length b).

Definition max_member_length (b : list member) : Z :=
  fold_right Z.max 0 (map seq_len b).

End Batcher.

Arguments state : clear implicits.

End Batcher.

(** ** Keyed records *)

(** ["/size" in key]: whether [sub] occurs in [s]. *)
Fixpoint str_in (sub s : string) : bool :=
  String.prefix sub s ||
  match s with
  | EmptyString => false
  | String _ s' => str_in sub s'
  end.

(** [key.split("/")[0]]: what stands before the first ["/"]. *)
Fixpoint split0 (s : string) : string :=
  match s with
  | EmptyString => EmptyString
  | String a s' => if Ascii.eqb a "/"%char then EmptyString else String a (split0 s')
  end.

(** ["%s/size0" % key]. *)
Definition size0_key (key : string) : string := (key ++ "/size0")%string.

(** ** The chunking queue runner: [TFChunkingQueueRunner] *)

Module Chunker.

(** What the runner reads of [extern_data.data[key]]. *)
Record Data : Type := MkData {
  time_dim_axis : option Z;
  time_dim_axis_excluding_batch : option Z
}.

(** Modelled from the spec: [Util.NumbersDict] (not under src), a per-key
    mapping of numbers with a default for all other keys. *)
Record NumbersDict : Type := MkNumbersDict {
  broadcast_value : Z;
  numbers_dict : gmap string Z
}.

Definition nd_get (nd : NumbersDict) (key : string) : Z :=
  default (broadcast_value nd) (numbers_dict nd !! key).

(** The [context_window] argument: [None], an [int], or a [NumbersDict]. *)
Inductive context_window_arg : Type :=
| CwNone
| CwInt (w : Z)
| CwDict (nd : NumbersDict).

Definition default_key : string := "data".

(** The normalisation at the head of [__init__]. *)
Definition init_context_window (cw : context_window_arg) : NumbersDict :=
  match cw with
  | CwNone => MkNumbersDict 0 ∅
  | CwInt w => MkNumbersDict 0 {[ default_key := w ]}
  | CwDict nd => nd
  end.

Definition init_chunk_step (chunk_step : option Z) : Z :=
  default 1 chunk_step.

Section Chunker.

(** A tensor with a time axis is the list of its frames along axis 0;
    [zero] is the frame [tf.zeros] fills with. *)
Context {frame : Type}.
Variable zero : frame.

Inductive value : Type :=
| Tensor (frames : list frame)
| Scalar (z : Z)
| Flag (b : bool)
| Text (s : string).

(** [tf.shape(x)[0]]. *)
Definition shape0 (x : list frame) : Z := Z.of_nat (length x).

(** Modelled from the spec: [TFUtil.slice_pad_zeros] (not under src).  The
    frames [begin, end) of [x], where every position outside of the frames
    [x] has is filled with zeros. *)
Definition slice_pad_zeros (x : list frame) (begin end_ : Z) : list frame :=
  (fun p => if (0 <=? p) && (p <? shape0 x)
            then nth (Z.to_nat p) x zero else zero)
    <$> seqZ begin (end_ - begin).

Variable extern_data : gmap string Data.
Variable chunk_size : option Z.
Variable chunk_step : Z.
Variable context_window : NumbersDict.
Variable source_has_epoch_end_signal : bool.

(** The first loop of [chunk_loop_body]: the size entries are copied. *)
Fixpoint copy_sizes (items : list (string * Data))
    (seq_item chunk : gmap string value) : option (gmap string value) :=
  match items with
  | [] => Some chunk
  | (key, _) :: rest =>
      if str_in "/size" key then
        v ← seq_item !! key;
        copy_sizes rest seq_item (<[key := v]> chunk)
      else copy_sizes rest seq_item chunk
  end.

(** The second loop of [chunk_loop_body]: a key without a time axis is
    copied, a key with one is cut to the window and its size entry is set.
    A failed assertion, and a value that is no tensor where its shape is
    taken, give [None]. *)
Fixpoint cut_keys (c seq_start : Z) (items : list (string * Data))
    (seq_item chunk : gmap string value) : option (gmap string value) :=
  match items with
  | [] => Some chunk
  | (key, data) :: rest =>
      if str_in "/size" key then cut_keys c seq_start rest seq_item chunk
      else
        v ← seq_item !! key;
        match time_dim_axis data with
        | None => cut_keys c seq_start rest seq_item (<[key := v]> chunk)
        | Some axis =>
            if axis =? 0 then
              match v with
              | Tensor x =>
                  let seq_end := Z.min (seq_start + c) (shape0 x) in
                  let w := nd_get context_window key in
                  cut_keys c seq_start rest seq_item
                    (<[size0_key key := Scalar (seq_end - seq_start + 2 * w)]>
                       (<[key := Tensor (slice_pad_zeros x (seq_start - w) (seq_end + w))]>
                          chunk))
              | _ => None
              end
            else None
        end
  end.

(** [chunk_loop_body]: the chunk enqueued for the window starting at
    [seq_start]; the next start is [seq_start + chunk_step]. *)
Definition chunk_loop_body (c : Z) (seq_item : gmap string value) (seq_start : Z)
  : option (gmap string value) :=
  chunk ← copy_sizes (map_to_list extern_data) seq_item ∅;
  cut_keys c seq_start (map_to_list extern_data) seq_item chunk.

(** The [tf.while_loop] over [seq_start]: the chunks enqueued, in order.
    Out of fuel, nothing is returned. *)
Fixpoint chunk_while_loop (fuel : nat) (c : Z) (seq_item : gmap string value)
    (default_data_seq_len seq_start : Z) : option (list (gmap string value)) :=
  match fuel with
  | O => None
  | S fuel' =>
      if seq_start <? default_data_seq_len then
        chunk ← chunk_loop_body c seq_item seq_start;
        rest ← chunk_while_loop fuel' c seq_item default_data_seq_len
                 (seq_start + chunk_step);
        Some (chunk :: rest)
      else Some []
  end.

(** [seq_loop_body] for the dequeued [seq_item]: the stop flag, where one
    is returned, and the records enqueued into the target queue. *)
Definition seq_loop_body (fuel : nat) (seq_item : gmap string value)
  : option (option bool * list (gmap string value)) :=
  x ← match seq_item !! default_key with
      | Some (Tensor x) => Some x
      | _ => None
      end;
  data ← extern_data !! default_key;
  if bool_decide (time_dim_axis_excluding_batch data = Some 0) then
    let default_data_seq_len := shape0 x in
    match chunk_size with
    | None => Some (None, [seq_item])
    | Some c =>
        chunks ← chunk_while_loop fuel c seq_item default_data_seq_len 0;
        stop ← (if source_has_epoch_end_signal then
                  match seq_item !! "epoch_end" with
                  | Some (Flag b) => Some b
                  | _ => None
                  end
                else Some false);
        Some (Some stop, chunks)
    end
  else None.

(** The outer [tf.while_loop]: sequences are dequeued and handled one
    after the other until a stop flag is set; the result is what went
    into the target queue. *)
Fixpoint loop_op (fuel : nat) (input : list (gmap string value))
  : option (list (gmap string value)) :=
  match input with
  | [] => Some []
  | seq_item :: rest =>
      r ← seq_loop_body fuel seq_item;
      match fst r with
      | Some true => Some (snd r)
      | _ => out ← loop_op fuel rest; Some (snd r ++ out)
      end
  end.

End Chunker.

Arguments value : clear implicits.

End Chunker.

(** ** Errors and the coordinator *)

(** The exceptions that the modelled code raises or lets through. *)
Inductive exn : Type :=
| Exception (msg : string)
| KeyError (key : string)
| IndexError
| ValueError
| DatasetError (seq_idx : Z) (key : string).

Inductive result (A : Type) : Type :=
| Ok (a : A)
| Raise (e : exn).

Arguments Ok {A} a.
Arguments Raise {A} e.

Definition bind {A B : Type} (r : result A) (k : A -> result B) : result B :=
  match r with
  | Ok a => k a
  | Raise e => Raise e
  end.

Notation "'letr' x ':=' r 'in' k" := (bind r (fun x => k))
  (at level 10, x name, r at level 100, k at level 200).

(** [tf.train.Coordinator], as far as the pipeline uses it: the stop event,
    and the exception kept for whoever joins.  [request_stop] records the
    exception of the first request only. *)
Record Coordinator : Type := MkCoordinator {
  stop_event : bool;
  exc_info_to_raise : option exn
}.

Definition should_stop (coord : Coordinator) : bool := stop_event coord.

Definition request_stop (ex : option exn) (coord : Coordinator) : Coordinator :=
  if stop_event coord then coord
  else MkCoordinator true
         (match exc_info_to_raise coord with
          | Some e => Some e
          | None => ex
          end).

(** ** The dataset reader: [DatasetReader] *)

Module Reader.

(** What the reader reads of [extern_data.data[key]]. *)
Record Data : Type := MkData {
  dtype : string;
  shape : list (option Z);
  size_dtype : string;
  axes_with_size : list nat
}.

Definition SpecialKeys : list string := ["seq_tag"; "seq_idx"; "epoch_end"].

Definition is_special (key : string) : bool :=
  bool_decide (key ∈ SpecialKeys).

(** ["%s/size%i" % (key, axis)]. *)
Definition size_key (key : string) (axis : nat) : string :=
  (key ++ "/size" ++ pretty axis)%string.

Section Reader.

(** Arrays are numpy's: [np_shape a] is [a.shape], and [np_zeros shape dtype]
    is [numpy.zeros(shape, dtype=dtype)]. *)
Context {ndarray : Type}.
Variable np_shape : ndarray -> list Z.
Variable np_zeros : list (option Z) -> string -> ndarray.

Inductive value : Type :=
| Array (a : ndarray)
| Int (z : Z)
| Str (s : string)
| Bool (b : bool).

(** The dataset, through the three calls of the loop. *)
Record Dataset : Type := MkDataset {
  is_less_than_num_seqs : Z -> bool;
  get_data : Z -> string -> result ndarray;
  get_tag : Z -> string
}.

(** The reader object: the constructor's arguments, [dict_keys], and the
    two attributes the loop sets.  The feed callback enqueues, so what it
    was called with is kept in [fed], oldest first. *)
Record DatasetReader : Type := MkDatasetReader {
  extern_data : gmap string Data;
  dataset : Dataset;
  coord : Coordinator;
  with_seq_tag : bool;
  with_seq_idx : bool;
  with_epoch_end : bool;
  dict_keys : list string;
  finished_iterating_seqs : bool;
  final_num_seqs : option Z;
  fed : list (gmap string value)
}.

Definition feed_callback (d : gmap string value) (r : DatasetReader) : DatasetReader :=
  MkDatasetReader (extern_data r) (dataset r) (coord r) (with_seq_tag r)
    (with_seq_idx r) (with_epoch_end r) (dict_keys r)
    (finished_iterating_seqs r) (final_num_seqs r) (fed r ++ [d]).

Definition set_finished (seq_idx : Z) (r : DatasetReader) : DatasetReader :=
  MkDatasetReader (extern_data r) (dataset r) (coord r) (with_seq_tag r)
    (with_seq_idx r) (with_epoch_end r) (dict_keys r)
    true (Some seq_idx) (fed r).

Definition set_coord (c : Coordinator) (r : DatasetReader) : DatasetReader :=
  MkDatasetReader (extern_data r) (dataset r) c (with_seq_tag r)
    (with_seq_idx r) (with_epoch_end r) (dict_keys r)
    (finished_iterating_seqs r) (final_num_seqs r) (fed r).

(** [get_dtype_for_key]. *)
Definition get_dtype_for_key (r : DatasetReader) (key : string) : result string :=
  match extern_data r !! key with
  | Some data => Ok (dtype data)
  | None =>
      if String.eqb key "seq_tag" then Ok "string"%string
      else if String.eqb key "seq_idx" then Ok "int32"%string
      else if String.eqb key "epoch_end" then Ok "bool"%string
      else if str_in "/size" key then
        match extern_data r !! split0 key with
        | Some data => Ok (size_dtype data)
        | None => Raise (KeyError (split0 key))
        end
      else Raise (Exception "invalid key")
  end.

(** [get_shape_for_key]. *)
Definition get_shape_for_key (r : DatasetReader) (key : string)
  : result (list (option Z)) :=
  match extern_data r !! key with
  | Some data => Ok (shape data)
  | None =>
      if is_special key then Ok []
      else if str_in "/size" key then Ok []
      else Raise (Exception "invalid key")
  end.

(** The value [_make_end_of_epoch_dict] gives to [key]. *)
Definition zero_value (r : DatasetReader) (key : string) : result value :=
  letr dt := get_dtype_for_key r key in
  letr sh := get_shape_for_key r key in
  if String.eqb dt "string" then Ok (Str "") else Ok (Array (np_zeros sh dt)).

(** The loop of [_make_end_of_epoch_dict] over [dict_keys]. *)
Fixpoint zero_fill (r : DatasetReader) (keys : list string) (d : gmap string value)
  : result (gmap string value) :=
  match keys with
  | [] => Ok d
  | key :: rest =>
      letr v := zero_value r key in
      zero_fill r rest (<[key := v]> d)
  end.

(** [_make_end_of_epoch_dict]. *)
Definition make_end_of_epoch_dict (r : DatasetReader) (seq_idx : Z)
  : result (gmap string value) :=
  letr d := zero_fill r (dict_keys r) ∅ in
  let d := if with_seq_idx r then <["seq_idx" := Int seq_idx]> d else d in
  Ok (<["epoch_end" := Bool true]> d).

(** The inner loop over [data.get_axes_with_size()]. *)
Fixpoint put_sizes (key : string) (a : ndarray) (axes : list nat)
    (d : gmap string value) : result (gmap string value) :=
  match axes with
  | [] => Ok d
  | axis :: rest =>
      match np_shape a !! axis with
      | Some n => put_sizes key a rest (<[size_key key axis := Int n]> d)
      | None => Raise IndexError
      end
  end.

(** The loop over [extern_data.data.items()] that fills the record of the
    sequence [seq_idx]. *)
Fixpoint read_keys (ds : Dataset) (seq_idx : Z) (items : list (string * Data))
    (d : gmap string value) : result (gmap string value) :=
  match items with
  | [] => Ok d
  | (key, data) :: rest =>
      if is_special key then read_keys ds seq_idx rest d
      else
        letr a := get_data ds seq_idx key in
        letr d := put_sizes key a (axes_with_size data) (<[key := Array a]> d) in
        read_keys ds seq_idx rest d
  end.

(** How a run of the loop body ends. *)
Inductive outcome : Type :=
| Finished
| Failed (e : exn)
| OutOfFuel.

(** The body of [loop], under [with self.coord.stop_on_exception()]: the
    reader as the body leaves it, and how the body ended. *)
Fixpoint loop_body (fuel : nat) (seq_idx : Z) (r : DatasetReader)
  : DatasetReader * outcome :=
  match fuel with
  | O => (r, OutOfFuel)
  | S fuel' =>
      if negb (is_less_than_num_seqs (dataset r) seq_idx) then
        let r := set_finished seq_idx r in
        if with_epoch_end r then
          match make_end_of_epoch_dict r seq_idx with
          | Ok d => (feed_callback d r, Finished)
          | Raise e => (r, Failed e)
          end
        else (r, Finished)
      else if should_stop (coord r) then (r, Finished)
      else
        match read_keys (dataset r) seq_idx (map_to_list (extern_data r)) ∅ with
        | Ok d =>
            let d := if with_seq_tag r
                     then <["seq_tag" := Str (get_tag (dataset r) seq_idx)]> d else d in
            let d := if with_seq_idx r then <["seq_idx" := Int seq_idx]> d else d in
            let d := if with_epoch_end r then <["epoch_end" := Bool false]> d else d in
            loop_body fuel' (seq_idx + 1) (feed_callback d r)
        | Raise e => (r, Failed e)
        end
  end.

(** [stop_on_exception]: an exception of the body is handed to
    [request_stop], and the [with] block ends normally. *)
Definition stop_on_exception (run : DatasetReader * outcome) : DatasetReader * outcome :=
  match snd run with
  | Failed e => (set_coord (request_stop (Some e) (coord (fst run))) (fst run), snd run)
  | _ => run
  end.

(** [loop]. *)
Definition loop (fuel : nat) (r : DatasetReader) : DatasetReader * outcome :=
  stop_on_exception (loop_body fuel 0 r).

End Reader.

End Reader.

(** ** The feed-dict data provider: [FeedDictDataProvider] *)

Module FeedDict.

(** Modelled from the spec: the entries of the batch plan ([Batch] and the
    elements of [batch.seqs], not under src), with the fields that
    [_get_next_batch] reads.  Frame offsets, lengths and slice numbers are
    counts; the per-key fields are [NumbersDict]s, read by key. *)
Record BatchSeq : Type := MkBatchSeq {
  seq_idx : Z;
  seq_start_frame : string -> nat;
  seq_end_frame : string -> nat;
  batch_slice : nat;
  batch_frame_offset : string -> nat;
  frame_length : string -> nat
}.

Record Batch : Type := MkBatch {
  seqs : list BatchSeq;
  start_seq : Z;
  end_seq : Z
}.

(** Modelled from the spec: the batch plan [BatchSetGenerator] (not under
    src), as the list of the batches still to come: [has_more] is that the
    list is not empty, [peek_next_n(1)] its head, [advance(1)] its tail. *)
Definition BatchSetGenerator : Type := list Batch.

Definition plan_has_more (plan : BatchSetGenerator) : bool :=
  match plan with
  | [] => false
  | _ :: _ => true
  end.

Definition plan_advance (plan : BatchSetGenerator) : BatchSetGenerator := tl plan.

(** The calls the provider makes on the dataset, in order. *)
Inductive call : Type :=
| LoadSeqs (start_seq end_seq : Z)
| GetDataSlice (seq_idx : Z) (key : string) (start_frame end_frame : nat).

Section FeedDict.

(** A batch array has the shape (slice, time, ...): the list of its
    slices, each the list of its frames.  [zero] is the frame of
    [numpy.zeros]. *)
Context {frame : Type}.
Variable zero : frame.

(** The dataset: [get_data_slice] and [shapes_for_batches], the latter
    read as the number of slices and of frames per slice for a key. *)
Record Dataset : Type := MkDataset {
  get_data_slice : Z -> string -> nat -> nat -> result (list frame);
  shapes_for_batches : Batch -> string -> nat * nat
}.

(** The two dictionaries [data] and [seq_lens] under construction, and the
    calls made on the dataset so far. *)
Record buffers : Type := MkBuffers {
  data : gmap string (list (list frame));
  seq_lens : gmap string (list nat);
  calls : list call
}.

(** The two dict comprehensions over [self.data_keys]. *)
Definition zeros_data (ds : Dataset) (batch : Batch) (data_keys : list string)
  : gmap string (list (list frame)) :=
  foldr (fun k m => <[k := replicate (fst (shapes_for_batches ds batch k))
                            (replicate (snd (shapes_for_batches ds batch k)) zero)]> m)
        ∅ data_keys.

Definition zeros_seq_lens (ds : Dataset) (batch : Batch) (data_keys : list string)
  : gmap string (list nat) :=
  foldr (fun k m => <[k := replicate (fst (shapes_for_batches ds batch k)) 0%nat]> m)
        ∅ data_keys.

(** [row[o:o + ls] = v] for [v] of [ls] frames, [ls] not zero: numpy
    assigns when the slice has [ls] frames, broadcasts a single frame
    into a shorter slice, and raises otherwise. *)
Definition assign_frames (row : list frame) (o : nat) (v : list frame)
  : result (list frame) :=
  let ls := length v in
  let m := (Nat.min (o + ls) (length row) - o)%nat in
  if Nat.eqb m ls then Ok (take o row ++ v ++ drop (o + ls) row)
  else if Nat.eqb ls 1 then Ok row
  else Raise ValueError.

(** [arr[q, o:o + ls] = v]. *)
Definition assign_slice (arr : list (list frame)) (q o : nat) (v : list frame)
  : result (list (list frame)) :=
  match arr !! q with
  | None => Raise IndexError
  | Some row =>
      letr row' := assign_frames row o v in
      Ok (<[q := row']> arr)
  end.

(** The body of the loop over [self.data_keys], for the entry [seq] and
    the key [k]: the buffers as the body leaves them, and the exception
    it raised, if any. *)
Definition copy_key (ds : Dataset) (seq : BatchSeq) (k : string) (b : buffers)
  : buffers * option exn :=
  let o := batch_frame_offset seq in
  let q := batch_slice seq in
  let l := frame_length seq in
  if Nat.eqb (l k) 0 then (b, None)
  else
    let b := MkBuffers (data b) (seq_lens b)
               (calls b ++ [GetDataSlice (seq_idx seq) k
                              (seq_start_frame seq k) (seq_end_frame seq k)]) in
    match get_data_slice ds (seq_idx seq) k (seq_start_frame seq k) (seq_end_frame seq k) with
    | Raise e => (b, Some e)
    | Ok v =>
        let ls := length v in
        if negb (Nat.eqb ls (l k)) then (b, Some (Exception "got shape[0]"))
        else
          match data b !! k, seq_lens b !! k with
          | Some arr, Some lens =>
              match assign_slice arr q (o k) v with
              | Raise e => (b, Some e)
              | Ok arr' =>
                  let b := MkBuffers (<[k := arr']> (data b)) (seq_lens b) (calls b) in
                  match lens !! q with
                  | None => (b, Some IndexError)
                  | Some cur =>
                      (MkBuffers (data b)
                         (<[k := <[q := Nat.max cur (o k + ls)]> lens]> (seq_lens b))
                         (calls b), None)
                  end
              end
          | _, _ => (b, Some (KeyError k))
          end
    end.

(** [for k in self.data_keys]. *)
Fixpoint copy_keys (ds : Dataset) (seq : BatchSeq) (keys : list string) (b : buffers)
  : buffers * option exn :=
  match keys with
  | [] => (b, None)
  | k :: rest =>
      match copy_key ds seq k b with
      | (b', None) => copy_keys ds seq rest b'
      | (b', Some e) => (b', Some e)
      end
  end.

(** [for seq in batch.seqs]. *)
Fixpoint copy_seqs (ds : Dataset) (keys : list string) (ss : list BatchSeq) (b : buffers)
  : buffers * option exn :=
  match ss with
  | [] => (b, None)
  | seq :: rest =>
      match copy_keys ds seq keys b with
      | (b', None) => copy_seqs ds keys rest b'
      | (b', Some e) => (b', Some e)
      end
  end.

(** [_get_next_batch], for the batch that [self.batches.peek_next_n(1)]
    gives; [calls0] are the dataset calls made before.  The frame counter
    [num_frames] is left out. *)
Definition get_next_batch_buffers (ds : Dataset) (data_keys : list string)
    (batch : Batch) (calls0 : list call) : buffers * option exn :=
  let b := MkBuffers (zeros_data ds batch data_keys)
             (zeros_seq_lens ds batch data_keys)
             (calls0 ++ [LoadSeqs (start_seq batch) (end_seq batch)]) in
  copy_seqs ds data_keys (seqs batch) b.

(** The [get_data_slice] calls of a batch: one for every entry and key
    whose frame length is not zero, in the order of the two loops. *)
Definition key_calls (seq : BatchSeq) (keys : list string) : list call :=
  flat_map (fun k => if Nat.eqb (frame_length seq k) 0 then []
                     else [GetDataSlice (seq_idx seq) k
                             (seq_start_frame seq k) (seq_end_frame seq k)])
           keys.

Definition slice_calls (keys : list string) (ss : list BatchSeq) : list call :=
  flat_map (fun seq => key_calls seq keys) ss.

(** The slice [q] of the array, and of the lengths, of the key [k]. *)
Definition data_slice (b : buffers) (k : string) (q : nat) : option (list frame) :=
  arr ← data b !! k; arr !! q.

Definition seq_lens_slice (b : buffers) (k : string) (q : nat) : option nat :=
  lens ← seq_lens b !! k; lens !! q.

(** What goes into the queue: the arrays by key, and the lengths under
    ["%s_seq_lens" % k]. *)
Inductive feed_value : Type :=
| FeedArray (arr : list (list frame))
| FeedLens (lens : list nat).

Definition seq_lens_key (k : string) : string := (k ++ "_seq_lens")%string.

(** [get_next_batch]: [data.copy()] with the lengths added, for the keys
    of [data]. *)
Definition enqueue_args_of (data_keys : list string) (b : buffers)
  : gmap string feed_value :=
  foldl (fun m k =>
           match data b !! k, seq_lens b !! k with
           | Some _, Some lens => <[seq_lens_key k := FeedLens lens]> m
           | _, _ => m
           end)
        (FeedArray <$> data b) data_keys.

(** The provider object.  [dataset_calls] are the calls made on the
    dataset, and [reported] is what went to [sys.excepthook]. *)
Record FeedDictDataProvider : Type := MkProvider {
  coord : Coordinator;
  dataset : Dataset;
  data_keys : list string;
  batches : BatchSetGenerator;
  queue : option (list (gmap string feed_value));
  tf_queue : option (list (gmap string feed_value));
  thread_finished : bool;
  reached_end : bool;
  dataset_calls : list call;
  reported : list exn
}.

Definition has_more (p : FeedDictDataProvider) : bool :=
  plan_has_more (batches p).

(** [self.queue.put] or [self.tf_queue.enqueue]; a queue is not bounded
    here, the producer never waits. *)
Definition put (args : gmap string feed_value) (p : FeedDictDataProvider)
  : FeedDictDataProvider * option exn :=
  match queue p, tf_queue p with
  | Some q, _ =>
      (MkProvider (coord p) (dataset p) (data_keys p) (batches p) (Some (q ++ [args]))
         (tf_queue p) (thread_finished p) (reached_end p) (dataset_calls p) (reported p),
       None)
  | None, Some t =>
      (MkProvider (coord p) (dataset p) (data_keys p) (batches p) None
         (Some (t ++ [args])) (thread_finished p) (reached_end p) (dataset_calls p)
         (reported p),
       None)
  | None, None => (p, Some (Exception "no queue"))
  end.

Definition set_calls (cs : list call) (p : FeedDictDataProvider) : FeedDictDataProvider :=
  MkProvider (coord p) (dataset p) (data_keys p) (batches p) (queue p) (tf_queue p)
    (thread_finished p) (reached_end p) cs (reported p).

Definition advance (p : FeedDictDataProvider) : FeedDictDataProvider :=
  MkProvider (coord p) (dataset p) (data_keys p) (plan_advance (batches p))
    (queue p) (tf_queue p)
    (thread_finished p) (reached_end p) (dataset_calls p) (reported p).

(** The [while] loop of [thread_main], by recursion on the batches still
    to come. *)
Fixpoint thread_loop (todo : BatchSetGenerator) (p : FeedDictDataProvider)
  : FeedDictDataProvider * option exn :=
  match todo with
  | [] => (p, None)
  | batch :: rest =>
      if should_stop (coord p) then (p, None)
      else
        match get_next_batch_buffers (dataset p) (data_keys p) batch (dataset_calls p) with
        | (b, Some e) => (set_calls (calls b) p, Some e)
        | (b, None) =>
            match put (enqueue_args_of (data_keys p) b) (set_calls (calls b) p) with
            | (p', Some e) => (p', Some e)
            | (p', None) => thread_loop rest (advance p')
            end
        end
  end.

(** [thread_main]: [try] the loop and set [reached_end]; [except] print
    and call the exception hook; [finally] set [thread_finished]. *)
Definition thread_main (p : FeedDictDataProvider) : FeedDictDataProvider :=
  let p :=
    match thread_loop (batches p) p with
    | (p', None) =>
        MkProvider (coord p') (dataset p') (data_keys p') (batches p') (queue p')
          (tf_queue p') (thread_finished p') (negb (has_more p')) (dataset_calls p')
          (reported p')
    | (p', Some e) =>
        MkProvider (coord p') (dataset p') (data_keys p') (batches p') (queue p')
          (tf_queue p') (thread_finished p') (reached_end p') (dataset_calls p')
          (reported p' ++ [e])
    end in
  MkProvider (coord p) (dataset p) (data_keys p) (batches p) (queue p) (tf_queue p)
    true (reached_end p) (dataset_calls p) (reported p).

End FeedDict.

End FeedDict.

(** ** The queue data provider: [QueueDataProvider] *)

Module QueueProvider.

(** The three counters of [TFBatchingQueue] that are updated with every
    batch taken out of it. *)
Record counters : Type := MkCounters {
  last_seq_idx_var : Z;
  seq_counter : Z;
  batch_counter : Z
}.

Definition init_counters : counters := MkCounters 0 0 0.

(** [tf.reduce_max] over [int32]: the least [int32] for no element. *)
Definition reduce_max (xs : list Z) : Z := foldr Z.max (-2147483648) xs.

(** [updates], for a batch whose members have the sequence numbers
    [seq_idxs]. *)
Definition updates (seq_idxs : list Z) (c : counters) : counters :=
  MkCounters (Z.max (last_seq_idx_var c) (reduce_max seq_idxs))
             (seq_counter c + Z.of_nat (length seq_idxs))
             (batch_counter c + 1).

(** The greatest sequence number among the members of the batches [bs],
    and zero when there is none above it. *)
Definition max_seq_idx_seen (bs : list (list Z)) : Z := foldr Z.max 0 (concat bs).

(** The counters after the batches [bs] went out, oldest first. *)
Definition dequeue_all (bs : list (list Z)) (c : counters) : counters :=
  foldl (fun c b => updates b c) c bs.

Section QueueProvider.

Context {ndarray : Type}.

(** The provider, with what [have_more_data] reads: the counters of
    [batch_queue], the current reader, if there is one, and
    [_last_seq_idx]. *)
Record QueueDataProvider : Type := MkQueueDataProvider {
  batch_queue : counters;
  cur_dataset_reader : option (@Reader.DatasetReader ndarray);
  last_seq_idx : option Z
}.

(** [_update_last_seq_idx]. *)
Definition update_last_seq_idx (p : QueueDataProvider) : QueueDataProvider :=
  MkQueueDataProvider (batch_queue p) (cur_dataset_reader p)
    (Some (last_seq_idx_var (batch_queue p))).

(** [have_more_data]: the answer and the provider afterwards, or the
    failed assertion. *)
Definition have_more_data (p : QueueDataProvider) : result (bool * QueueDataProvider) :=
  match cur_dataset_reader p with
  | None => Raise (Exception "assert self.cur_dataset_reader")
  | Some r =>
      match Reader.final_num_seqs r with
      | None => Ok (true, p)
      | Some n =>
          let p := update_last_seq_idx p in
          match last_seq_idx p with
          | None => Raise (Exception "unsupported operand type")
          | Some last =>
              let is_at_end := n <=? last + 1 in
              Ok (negb is_at_end, p)
          end
      end
  end.

End QueueProvider.

End QueueProvider.

(** ** The staged pipeline *)

Module Pipeline.

Section Pipeline.

Context {frame : Type}.

(** What the batching queue reads of a record: [v["epoch_end"]], and
    [tf.shape(v[default_key])[0]]. *)
Definition record_epoch_end (v : gmap string (Chunker.value frame)) : bool :=
  match v !! "epoch_end" with
  | Some (Chunker.Flag b) => b
  | _ => false
  end.

Definition record_seq_len (v : gmap string (Chunker.value frame)) : Z :=
  match v !! Chunker.default_key with
  | Some (Chunker.Tensor x) => Chunker.shape0 x
  | _ => 0
  end.

(** The batching queue after the records [queued] came out of the chunk
    queue. *)
Definition batch_stage (batch_size max_seqs : Z)
    (queued : list (gmap string (Chunker.value frame)))
  : Batcher.state (gmap string (Chunker.value frame)) :=
  Batcher.loop record_epoch_end record_seq_len batch_size max_seqs queued Batcher.init.

End Pipeline.

End Pipeline.

(** ** Example inputs *)

Module Examples.

(** A member of the batching queue reduced to what the queue reads: the
    epoch-end flag and the length. *)
Definition plain_member : Type := bool * Z.

Definition seq_of_len (n : Z) : plain_member := (false, n).

Definition sentinel : plain_member := (true, 0).

(** A sequence of ten frames under the key ["data"], whose frames are
    numbers, and the schema with that one key. *)
Definition ten_frames : list Z := [1; 2; 3; 4; 5; 6; 7; 8; 9; 10].

Definition data_schema : gmap string Chunker.Data :=
  {[ "data"%string := Chunker.MkData (Some 0) (Some 0) ]}.

Definition ten_frame_seq : gmap string (Chunker.value Z) :=
  {[ "data"%string := Chunker.Tensor ten_frames ]}.

(** The last chunk of that sequence for [chunk_size = 4], [chunk_step = 4]
    and one frame of context. *)
Definition last_chunk : gmap string (Chunker.value Z) :=
  {[ "data"%string := Chunker.Tensor [8; 9; 10; 0];
     "data/size0"%string := Chunker.Scalar 4 ]}.

(** Arrays for the reader: a vector of numbers, or the zeros of a shape
    and a dtype. *)
Inductive ex_array : Type :=
| Vec (xs : list Z)
| Zeros (shape : list (option Z)) (dtype : string).

Definition ex_shape (a : ex_array) : list Z :=
  match a with
  | Vec xs => [Z.of_nat (length xs)]
  | Zeros shape _ => default 0 <$> shape
  end.

Definition reader_schema : gmap string Reader.Data :=
  {[ "data"%string := Reader.MkData "int32" [Some 2] "int32" [0%nat] ]}.

(** A dataset of two sequences, and one whose second sequence cannot be
    read. *)
Definition two_seqs : Reader.Dataset :=
  Reader.MkDataset (fun i => i <? 2) (fun i _ => Ok (Vec [i; i])) (fun _ => "tag"%string).

Definition broken_seqs : @Reader.Dataset ex_array :=
  Reader.MkDataset (fun i => i <? 2)
    (fun i key => if i =? 1 then Raise (DatasetError i key) else Ok (Vec [i; i]))
    (fun _ => "tag"%string).

Definition fresh_coord : Coordinator := MkCoordinator false None.

(** Readers with the epoch-end option, with and without [seq_idx]. *)
Definition reader_with_seq_idx : Reader.DatasetReader :=
  Reader.MkDatasetReader reader_schema two_seqs fresh_coord false true true
    ["data"; "data/size0"; "seq_idx"; "epoch_end"]%string false None [].

Definition reader_without_seq_idx : Reader.DatasetReader :=
  Reader.MkDatasetReader reader_schema two_seqs fresh_coord false false true
    ["data"; "data/size0"; "epoch_end"]%string false None [].

Definition reader_of_broken_seqs : Reader.DatasetReader :=
  Reader.MkDatasetReader reader_schema broken_seqs fresh_coord false true true
    ["data"; "data/size0"; "seq_idx"; "epoch_end"]%string false None [].

(** The epoch-end record of [reader_with_seq_idx] after its two
    sequences. *)
Definition sentinel_with_seq_idx : gmap string (@Reader.value ex_array) :=
  {[ "data"%string := Reader.Array (Zeros [Some 2] "int32");
     "data/size0"%string := Reader.Array (Zeros [] "int32");
     "seq_idx"%string := Reader.Int 2;
     "epoch_end"%string := Reader.Bool true ]}.

(** A batch of two entries that share the slice 0.  The first has no
    frames of ["classes"]; the second has two. *)
Definition by_key (data_n classes_n : nat) (k : string) : nat :=
  if String.eqb k "data" then data_n
  else if String.eqb k "classes" then classes_n else 0%nat.

Definition first_entry : FeedDict.BatchSeq :=
  FeedDict.MkBatchSeq 0 (by_key 0 0) (by_key 2 0) 0 (by_key 0 0) (by_key 2 0).

Definition second_entry : FeedDict.BatchSeq :=
  FeedDict.MkBatchSeq 1 (by_key 0 0) (by_key 3 2) 0 (by_key 2 0) (by_key 3 2).

Definition shared_slice_batch : FeedDict.Batch :=
  FeedDict.MkBatch [first_entry; second_entry] 0 2.

(** A dataset whose slices are frames of sevens, of the length asked
    for, and one that gives a frame too many. *)
Definition sevens : @FeedDict.Dataset Z :=
  FeedDict.MkDataset (fun _ _ start_frame end_frame => Ok (replicate (end_frame - start_frame) 7))
    (fun _ k => (1%nat, by_key 5 2 k)).

Definition too_long : @FeedDict.Dataset Z :=
  FeedDict.MkDataset
    (fun _ _ start_frame end_frame => Ok (replicate (S (end_frame - start_frame)) 7))
    (fun _ k => (1%nat, by_key 5 2 k)).

Definition provider_of (ds : @FeedDict.Dataset Z) : FeedDict.FeedDictDataProvider :=
  FeedDict.MkProvider fresh_coord ds ["classes"; "data"]%string [shared_slice_batch]
    (Some []) None false false [] [].

End Examples.

(** ** More of the dataset reader *)

Module ReaderMore.

(** [keys.add(keys)] in [_get_keys]: the set itself is what is added, and a
    set is not hashable.  Python raises a [TypeError] here, which is kept
    as an [Exception] with Python's message. *)
Definition add_keys_to_keys (keys : gset string) : result (gset string) :=
  Raise (Exception "unhashable type: 'set'").

(** The inner loop of [_get_keys] over [data.get_axes_with_size()]. *)
Definition add_size_keys (key : string) (axes : list nat) (keys : gset string)
  : gset string :=
  foldl (fun keys axis => keys ∪ {[ Reader.size_key key axis ]}) keys axes.

(** The loop of [_get_keys] over [extern_data.data.items()]. *)
Fixpoint get_keys_items (items : list (string * Reader.Data)) (keys : gset string)
  : result (gset string) :=
  match items with
  | [] => Ok keys
  | (key, data) :: rest =>
      if Reader.is_special key then get_keys_items rest keys
      else
        letr keys := add_keys_to_keys keys in
        get_keys_items rest (add_size_keys key (Reader.axes_with_size data) keys)
  end.

(** [_get_keys], which [__init__] calls for [dict_keys]. *)
Definition get_keys (extern_data : gmap string Reader.Data)
    (with_seq_tag with_seq_idx with_epoch_end : bool) : result (gset string) :=
  letr keys := get_keys_items (map_to_list extern_data) ∅ in
  let keys := if with_seq_tag then keys ∪ {[ "seq_tag"%string ]} else keys in
  let keys := if with_seq_idx then keys ∪ {[ "seq_idx"%string ]} else keys in
  let keys := if with_epoch_end then keys ∪ {[ "epoch_end"%string ]} else keys in
  Ok keys.

Section ReaderMore.

Context {ndarray : Type}.
Variable np_shape : ndarray -> list Z.

(** The record that one turn of [loop] builds for the sequence [seq_idx]
    and hands to the feed callback. *)
Definition seq_record (r : @Reader.DatasetReader ndarray) (seq_idx : Z)
  : result (gmap string Reader.value) :=
  letr d := Reader.read_keys np_shape (Reader.dataset r) seq_idx
              (map_to_list (Reader.extern_data r)) ∅ in
  let d := if Reader.with_seq_tag r
           then <["seq_tag"%string
                  := Reader.Str (Reader.get_tag (Reader.dataset r) seq_idx)]> d
           else d in
  let d := if Reader.with_seq_idx r
           then <["seq_idx"%string := Reader.Int seq_idx]> d else d in
  let d := if Reader.with_epoch_end r
           then <["epoch_end"%string := Reader.Bool false]> d else d in
  Ok d.

(** [__init__]: the attributes are set from the arguments, and [dict_keys]
    is what [_get_keys] returns.  [dict_keys] is a set in the code and a
    list here: the elements of the set, in some order. *)
Definition init (extern_data : gmap string Reader.Data) (dataset : @Reader.Dataset ndarray)
    (coord : Coordinator) (with_seq_tag with_seq_idx with_epoch_end : bool)
  : result (@Reader.DatasetReader ndarray) :=
  letr keys := get_keys extern_data with_seq_tag with_seq_idx with_epoch_end in
  Ok (Reader.MkDatasetReader extern_data dataset coord with_seq_tag with_seq_idx
        with_epoch_end (elements keys) false None []).

End ReaderMore.

End ReaderMore.

(** ** More of the queue data provider *)

Module ProviderMore.

Section ProviderMore.

Context {ndarray : Type}.

(** [init_dataset]: the assertion that no reader is set, and then the
    constructor of [DatasetReader] with its three options left at their
    default.  [extern_data] and [coord] are the attributes of the provider;
    the feed callback puts the record into the train or the eval queue,
    which is the list [fed] of the reader. *)
Definition init_dataset (extern_data : gmap string Reader.Data) (coord : Coordinator)
    (p : @QueueProvider.QueueDataProvider ndarray) (dataset : @Reader.Dataset ndarray)
  : result (@QueueProvider.QueueDataProvider ndarray) :=
  match QueueProvider.cur_dataset_reader p with
  | Some _ => Raise (Exception "assert not self.cur_dataset_reader")
  | None =>
      letr r := ReaderMore.init extern_data dataset coord false false false in
      Ok (QueueProvider.MkQueueDataProvider (QueueProvider.batch_queue p) (Some r)
            (QueueProvider.last_seq_idx p))
  end.

End ProviderMore.

End ProviderMore.

(** ** The data queues: [TFDataQueues] *)

Module DataQueues.

(** [self.names] as the constructor leaves it: the data keys of
    [extern_data] and, when no [enqueue_data] was given, behind them the
    size names ["<key>/size<axis>"], key by key and axis by axis. *)
Definition size_names (items : list (string * Reader.Data)) : list string :=
  items ≫= (fun kv => Reader.size_key kv.1 <$> Reader.axes_with_size kv.2).

Definition init_names (extern_data : gmap string Reader.Data) (enqueue_data : bool)
  : list string :=
  let names := (map_to_list extern_data).*1 in
  if enqueue_data then names else names ++ size_names (map_to_list extern_data).

Section DataQueues.

Context {T : Type}.
Variable names : list string.

(** [[x[key] for key in self.names]]. *)
Fixpoint lookup_all (x : gmap string T) (keys : list string) : result (list T) :=
  match keys with
  | [] => Ok []
  | key :: rest =>
      match x !! key with
      | None => Raise (KeyError key)
      | Some v => letr vs := lookup_all x rest in Ok (v :: vs)
      end
  end.

(** [_as_list]. *)
Definition as_list (x : gmap string T) : result (list T) :=
  if negb (Nat.eqb (size x) (length names))
  then Raise (Exception "assert len(x) == len(self.names)")
  else lookup_all x names.

(** [_as_dict]: in [dict(zip(names, x))] a later pair of a name takes the
    place of an earlier one. *)
Definition as_dict (xs : list T) : result (gmap string T) :=
  if negb (Nat.eqb (length xs) (length names))
  then Raise (Exception "assert len(x) == len(self.names)")
  else Ok (list_to_map (reverse (zip names xs))).

(** [make_dequeue_op], where [train_item] and [eval_item] are what
    [train_queue.dequeue()] and [eval_queue.dequeue()] give; the train flag
    chooses the branch of the [cond]. *)
Definition make_dequeue_op (train_flag : bool) (train_item eval_item : gmap string T)
  : result (gmap string T) :=
  letr xs := if train_flag then as_list train_item else as_list eval_item in
  as_dict xs.

End DataQueues.

End DataQueues.

(** ** More example inputs *)

Module MoreExamples.

(** A schema with a key that has no time axis, a sequence of three frames
    with a value for it and with a sequence number, and the first chunk of
    that sequence for [chunk_size = 2]. *)
Definition tagged_schema : gmap string Chunker.Data :=
  {[ "data"%string := Chunker.MkData (Some 0) (Some 0);
     "speaker"%string := Chunker.MkData None None ]}.

Definition tagged_seq : gmap string (Chunker.value Z) :=
  {[ "data"%string := Chunker.Tensor [1; 2; 3];
     "speaker"%string := Chunker.Scalar 7;
     "seq_idx"%string := Chunker.Scalar 0 ]}.

Definition tagged_chunk : gmap string (Chunker.value Z) :=
  {[ "data"%string := Chunker.Tensor [1; 2];
     "data/size0"%string := Chunker.Scalar 2;
     "speaker"%string := Chunker.Scalar 7 ]}.

(** An epoch-end record whose default input has no frames. *)
Definition empty_epoch_end : gmap string (Chunker.value Z) :=
  {[ "data"%string := Chunker.Tensor [];
     "epoch_end"%string := Chunker.Flag true ]}.

(** The record of the first sequence of [Examples.reader_with_seq_idx], and
    that reader when its coordinator was asked to stop. *)
Definition first_record : gmap string (@Reader.value Examples.ex_array) :=
  {[ "data"%string := Reader.Array (Examples.Vec [0; 0]);
     "data/size0"%string := Reader.Int 2;
     "seq_idx"%string := Reader.Int 0;
     "epoch_end"%string := Reader.Bool false ]}.

Definition stopped_reader : @Reader.DatasetReader Examples.ex_array :=
  Reader.set_coord (MkCoordinator true None) Examples.reader_with_seq_idx.

End MoreExamples.

(** * Properties *)

(** ** The batching queue *)

Section BatcherFacts.

Context {member : Type}.
Variable epoch_end : member -> bool.
Variable seq_len : member -> Z.
Variable batch_size : Z.
Variable max_seqs : Z.

Local Abbreviation step := (Batcher.make_enqueue_op epoch_end seq_len batch_size max_seqs).
Local Abbreviation run := (Batcher.loop epoch_end seq_len batch_size max_seqs).

Lemma step_out_queue (v : member) (st : Batcher.state member) :
  Batcher.tf_out_queue (snd (step v st)) = Batcher.tf_out_queue st ++ [v].
Proof.
  unfold Batcher.make_enqueue_op, Batcher.enqueue_cur; simpl.
  repeat (case_match; simpl); reflexivity.
Qed.

Lemma step_stop (v : member) (st : Batcher.state member) :
  fst (step v st) = epoch_end v.
Proof. reflexivity. Qed.

Lemma run_app (xs ys : list member) (st : Batcher.state member) :
  run (xs ++ ys) st = run ys (run xs st).
Proof. unfold Batcher.loop. apply fold_left_app. Qed.

Lemma run_cons (v : member) (input : list member) (st : Batcher.state member) :
  run (v :: input) st = run input (snd (step v st)).
Proof. reflexivity. Qed.

Lemma run_out_queue (input : list member) (st : Batcher.state member) :
  Batcher.tf_out_queue (run input st) = Batcher.tf_out_queue st ++ input.
Proof.
  revert st. induction input as [|v input IH]; intros st.
  - by rewrite app_nil_r.
  - rewrite run_cons, IH, step_out_queue. by rewrite <- app_assoc.
Qed.

(** One run of the enqueue loop op consumes a prefix of the input, up to
    the first epoch end. *)
Lemma make_enqueue_loop_op_run (input : list member) (st : Batcher.state member) :
  exists consumed_input : list member,
    input = consumed_input
            ++ snd (Batcher.make_enqueue_loop_op epoch_end seq_len batch_size max_seqs
                      input st)
    /\ fst (Batcher.make_enqueue_loop_op epoch_end seq_len batch_size max_seqs input st)
       = run consumed_input st.
Proof.
  revert st. induction input as [|v input IH]; intros st.
  - by exists [].
  - cbn [Batcher.make_enqueue_loop_op].
    destruct (step v st) as [stop st'] eqn:Hstep.
    assert (Hst' : st' = snd (step v st)) by by rewrite Hstep.
    destruct stop.
    + exists [v]. split; [done|]. simpl fst. by rewrite run_cons, <- Hst'.
    + destruct (IH st') as (pre & Hpre & Hrun).
      exists (v :: pre). split; [simpl; by f_equal|].
      by rewrite run_cons, <- Hst'.
Qed.

(** The three ways a step on a sequence member ends, and the step on an
    epoch end. *)
Lemma step_epoch_end (v : member) (st : Batcher.state member) :
  epoch_end v = true ->
  snd (step v st) =
    Batcher.State 0 0 (Batcher.tf_batch_nums st ++ [Batcher.cur_batch_num st])
      (Batcher.tf_out_queue st ++ [v]).
Proof.
  intros Hv. unfold Batcher.make_enqueue_op, Batcher.enqueue_cur. rewrite Hv. simpl.
  by rewrite Z.add_0_r.
Qed.

Lemma step_cap (v : member) (st : Batcher.state member) :
  epoch_end v = false ->
  max_seqs <= Batcher.cur_batch_num st + 1 ->
  snd (step v st) =
    Batcher.State 0 0 (Batcher.tf_batch_nums st ++ [Batcher.cur_batch_num st + 1])
      (Batcher.tf_out_queue st ++ [v]).
Proof.
  intros Hv Hcap. unfold Batcher.make_enqueue_op, Batcher.enqueue_cur. rewrite Hv. simpl.
  destruct (Z.leb_spec max_seqs (Batcher.cur_batch_num st + 1)); [reflexivity | lia].
Qed.

Lemma step_budget (v : member) (st : Batcher.state member) :
  epoch_end v = false ->
  Batcher.cur_batch_num st + 1 < max_seqs ->
  2 <= Batcher.cur_batch_num st + 1 ->
  batch_size < Z.max (Batcher.cur_max_seq_len st) (seq_len v) * (Batcher.cur_batch_num st + 1) ->
  snd (step v st) =
    Batcher.State 1 (seq_len v)
      (Batcher.tf_batch_nums st ++ [Batcher.cur_batch_num st])
      (Batcher.tf_out_queue st ++ [v]).
Proof.
  intros Hv Hcap H2 Hb. unfold Batcher.make_enqueue_op, Batcher.enqueue_cur.
  rewrite Hv. simpl.
  destruct (Z.leb_spec max_seqs (Batcher.cur_batch_num st + 1)); [lia|].
  destruct (Z.leb_spec 2 (Batcher.cur_batch_num st + 1)); [|lia].
  destruct (Z.ltb_spec batch_size
    (Z.max (Batcher.cur_max_seq_len st) (seq_len v) * (Batcher.cur_batch_num st + 1))); [|lia].
  simpl. do 3 f_equal. lia.
Qed.

Lemma step_admit (v : member) (st : Batcher.state member) :
  epoch_end v = false ->
  Batcher.cur_batch_num st + 1 < max_seqs ->
  (Batcher.cur_batch_num st + 1 < 2 \/
   Z.max (Batcher.cur_max_seq_len st) (seq_len v) * (Batcher.cur_batch_num st + 1) <= batch_size) ->
  snd (step v st) =
    Batcher.State (Batcher.cur_batch_num st + 1)
      (Z.max (Batcher.cur_max_seq_len st) (seq_len v))
      (Batcher.tf_batch_nums st)
      (Batcher.tf_out_queue st ++ [v]).
Proof.
  intros Hv Hcap Hb. unfold Batcher.make_enqueue_op, Batcher.enqueue_cur.
  rewrite Hv. simpl.
  destruct (Z.leb_spec max_seqs (Batcher.cur_batch_num st + 1)); [lia|].
  destruct (Z.leb_spec 2 (Batcher.cur_batch_num st + 1)); simpl; [|reflexivity].
  destruct (Z.ltb_spec batch_size
    (Z.max (Batcher.cur_max_seq_len st) (seq_len v) * (Batcher.cur_batch_num st + 1)));
    [lia | reflexivity].
Qed.

(** Batch sizes against the member queue. *)
Lemma consumed_snoc (nums : list Z) (n : Z) :
  Batcher.consumed (nums ++ [n]) = (Batcher.consumed nums + Z.to_nat n)%nat.
Proof. induction nums as [|k nums IH]; simpl; lia. Qed.

Lemma dequeue_batches_snoc (nums : list Z) (n : Z) (q : list member) :
  Batcher.dequeue_batches (nums ++ [n]) q =
  Batcher.dequeue_batches nums q ++ [take (Z.to_nat n) (drop (Batcher.consumed nums) q)].
Proof.
  revert q. induction nums as [|k nums IH]; intros q; simpl.
  - by rewrite drop_0.
  - by rewrite IH, drop_drop.
Qed.

Lemma dequeue_batches_more (nums : list Z) (q extra : list member) :
  (Batcher.consumed nums <= length q)%nat ->
  Batcher.dequeue_batches nums (q ++ extra) = Batcher.dequeue_batches nums q.
Proof.
  revert q. induction nums as [|k nums IH]; intros q Hle; simpl in *; [done|].
  rewrite take_app_le by lia. rewrite drop_app_le by lia.
  rewrite IH; [done|]. rewrite length_drop. lia.
Qed.

Lemma concat_dequeue_batches (nums : list Z) (q : list member) :
  concat (Batcher.dequeue_batches nums q) = take (Batcher.consumed nums) q.
Proof.
  revert q. induction nums as [|k nums IH]; intros q; simpl; [done|].
  rewrite IH. apply take_take_drop.
Qed.

Lemma accounted_init : Batcher.accounted (@Batcher.init member).
Proof. split; simpl; lia. Qed.

Lemma accounted_pending (st : Batcher.state member) :
  Batcher.accounted st ->
  Batcher.member_count (Batcher.pending st) = Batcher.cur_batch_num st.
Proof.
  intros [Hlen Hn]. unfold Batcher.member_count, Batcher.pending.
  rewrite length_drop. lia.
Qed.

Lemma accounted_step (v : member) (st : Batcher.state member) :
  epoch_end v = false -> Batcher.accounted st -> Batcher.accounted (snd (step v st)).
Proof.
  intros Hv [Hlen Hn]. unfold Batcher.accounted.
  destruct (Z.le_gt_cases max_seqs (Batcher.cur_batch_num st + 1)) as [Hcap|Hcap].
  { rewrite step_cap by done. simpl. rewrite consumed_snoc, length_app. simpl. lia. }
  destruct (Z.le_gt_cases 2 (Batcher.cur_batch_num st + 1)) as [H2|H2];
    [destruct (Z.lt_ge_cases batch_size
       (Z.max (Batcher.cur_max_seq_len st) (seq_len v) * (Batcher.cur_batch_num st + 1)))
       as [Hb|Hb] |].
  - rewrite step_budget by (done || lia). simpl.
    rewrite consumed_snoc, length_app. simpl. lia.
  - rewrite step_admit by (done || lia). simpl. rewrite length_app. simpl. lia.
  - rewrite step_admit by (done || lia). simpl. rewrite length_app. simpl. lia.
Qed.

Lemma accounted_run (ms : list member) (st : Batcher.state member) :
  Forall (fun m => epoch_end m = false) ms ->
  Batcher.accounted st -> Batcher.accounted (run ms st).
Proof.
  intros Hms. revert st. induction Hms as [|m ms Hm _ IH]; intros st Hst; [done|].
  rewrite run_cons. apply IH. by apply accounted_step.
Qed.



(** With a cap of at least one, the pending count stays below the cap and
    no batch size is above it. *)
Lemma cap_invariant (input : list member) :
  1 <= max_seqs ->
  0 <= Batcher.cur_batch_num (run input Batcher.init) < max_seqs
  /\ Forall (fun n => n <= max_seqs) (Batcher.tf_batch_nums (run input Batcher.init)).
Proof.
  intros Hmax. induction input as [|v input IH] using rev_ind.
  - simpl. split; [lia | constructor].
  - rewrite run_app. set (st := run input Batcher.init) in *.
    change (run [v] st) with (snd (step v st)).
    destruct IH as [Hn Hnums].
    destruct (epoch_end v) eqn:Hv.
    { rewrite step_epoch_end by done. simpl. split; [lia|].
      apply Forall_app. split; [done|]. constructor; [lia | constructor]. }
    destruct (Z.le_gt_cases max_seqs (Batcher.cur_batch_num st + 1)) as [Hcap|Hcap].
    { rewrite step_cap by done. simpl. split; [lia|].
      apply Forall_app. split; [done|]. constructor; [lia | constructor]. }
    destruct (Z.le_gt_cases 2 (Batcher.cur_batch_num st + 1)) as [H2|H2];
      [destruct (Z.lt_ge_cases batch_size
         (Z.max (Batcher.cur_max_seq_len st) (seq_len v) * (Batcher.cur_batch_num st + 1)))
         as [Hb|Hb] |].
    + rewrite step_budget by (done || lia). simpl. split; [lia|].
      apply Forall_app. split; [done|]. constructor; [lia | constructor].
    + rewrite step_admit by (done || lia). simpl. split; [lia | done].
    + rewrite step_admit by (done || lia). simpl. split; [lia | done].
Qed.

Lemma dequeue_batches_count (bound : Z) (nums : list Z) (q : list member) :
  0 <= bound ->
  Forall (fun n => n <= bound) nums ->
  Forall (fun b => Batcher.member_count b <= bound) (Batcher.dequeue_batches nums q).
Proof.
  intros Hb Hnums. revert q. induction Hnums as [|n nums Hn _ IH]; intros q; simpl.
  - constructor.
  - constructor; [|apply IH]. unfold Batcher.member_count. rewrite length_take. lia.
Qed.


Lemma dequeue_batches_elem (nums : list Z) (q b : list member) (v : member) :
  b ∈ Batcher.dequeue_batches nums q -> v ∈ b -> v ∈ q.
Proof.
  revert q. induction nums as [|n nums IH]; intros q Hb Hv; simpl in Hb.
  - by apply elem_of_nil in Hb.
  - apply elem_of_cons in Hb as [->|Hb].
    + by eapply subseteq_take.
    + eapply subseteq_drop. by eapply IH.
Qed.

End BatcherFacts.







(** ** Keys *)

Lemma str_in_app_r (sub s t : string) :
  String.prefix sub t = true -> str_in sub (s ++ t)%string = true.
Proof.
  intros Ht. induction s as [|a s IH]; simpl.
  - destruct t; simpl in *; rewrite Ht; reflexivity.
  - rewrite IH. apply orb_true_r.
Qed.

Lemma str_in_size0_key (key : string) : str_in "/size" (size0_key key) = true.
Proof. apply str_in_app_r. reflexivity. Qed.

Lemma string_length_app (s t : string) :
  String.length (s ++ t)%string = (String.length s + String.length t)%nat.
Proof. induction s as [|a s IH]; simpl; [reflexivity | by rewrite IH]. Qed.

Lemma string_app_inv_tail (s1 s2 t : string) :
  (s1 ++ t)%string = (s2 ++ t)%string -> s1 = s2.
Proof.
  revert s2. induction s1 as [|a s1 IH]; intros [|b s2] H; simpl in H.
  - reflexivity.
  - apply (f_equal String.length) in H.
    rewrite ?string_length_app in H. simpl in H. rewrite ?string_length_app in H. lia.
  - apply (f_equal String.length) in H.
    rewrite ?string_length_app in H. simpl in H. rewrite ?string_length_app in H. lia.
  - injection H as -> H. f_equal. by apply IH.
Qed.

Lemma size0_key_inj (k1 k2 : string) : size0_key k1 = size0_key k2 -> k1 = k2.
Proof. apply string_app_inv_tail. Qed.

Lemma size0_key_not_plain (k key : string) :
  str_in "/size" key = false -> size0_key k <> key.
Proof. intros Hkey <-. by rewrite str_in_size0_key in Hkey. Qed.

(** ** The chunking queue runner *)

Section ChunkerFacts.

Context {frame : Type}.
Variable zero : frame.
Variable extern_data : gmap string Chunker.Data.
Variable chunk_step : Z.
Variable context_window : Chunker.NumbersDict.

Local Abbreviation record := (gmap string (Chunker.value frame)).
Local Abbreviation body := (Chunker.chunk_loop_body zero extern_data context_window).
Local Abbreviation cut := (Chunker.cut_keys zero context_window).
Local Abbreviation while := (Chunker.chunk_while_loop zero extern_data chunk_step context_window).

(** The window that [slice_pad_zeros] cuts. *)
Lemma length_slice_pad_zeros (x : list frame) (b e : Z) :
  length (Chunker.slice_pad_zeros zero x b e) = Z.to_nat (e - b).
Proof. unfold Chunker.slice_pad_zeros. by rewrite length_fmap, length_seqZ. Qed.

Lemma lookup_slice_pad_zeros (x : list frame) (b e p : Z) :
  b <= p < e ->
  Chunker.slice_pad_zeros zero x b e !! Z.to_nat (p - b)
  = Some (if (0 <=? p) && (p <? Chunker.shape0 x) then nth (Z.to_nat p) x zero else zero).
Proof.
  intros Hp. unfold Chunker.slice_pad_zeros.
  rewrite list_lookup_fmap, lookup_seqZ_lt by lia. simpl.
  by replace (b + Z.of_nat (Z.to_nat (p - b))) with p by lia.
Qed.

(** What [cut_keys] leaves alone. *)
Lemma cut_keys_frame (c start : Z) (items : list (string * Chunker.Data))
    (seq_item chunk0 chunk : record) (key' : string) :
  cut c start items seq_item chunk0 = Some chunk ->
  (forall k d, (k, d) ∈ items -> str_in "/size" k = false ->
               k <> key' /\ size0_key k <> key') ->
  chunk !! key' = chunk0 !! key'.
Proof.
  revert chunk0. induction items as [|[k d] items IH]; intros chunk0 Hcut Hne;
    simpl in Hcut.
  - by injection Hcut as <-.
  - assert (Hrest : forall k d, (k, d) ∈ items -> str_in "/size" k = false ->
                                k <> key' /\ size0_key k <> key').
    { intros k2 d2 Hin Hk2. apply (Hne k2 d2); [by apply list_elem_of_further | done]. }
    destruct (str_in "/size" k) eqn:Hk; [exact (IH _ Hcut Hrest)|].
    destruct (Hne k d (list_elem_of_here _ _) Hk) as [Hk1 Hk2].
    destruct (seq_item !! k) as [v|]; simpl in Hcut; [|done].
    destruct (Chunker.time_dim_axis d) as [axis|].
    + destruct (axis =? 0); [|done]. destruct v; try done.
      rewrite (IH _ Hcut Hrest). by rewrite !lookup_insert_ne.
    + rewrite (IH _ Hcut Hrest). by rewrite lookup_insert_ne.
Qed.

(** What [cut_keys] writes for a key with a time axis. *)
Lemma cut_keys_window (c start : Z) (items : list (string * Chunker.Data))
    (seq_item chunk0 chunk : record) (key : string) (d : Chunker.Data)
    (x : list frame) :
  NoDup items.*1 ->
  (key, d) ∈ items ->
  str_in "/size" key = false ->
  Chunker.time_dim_axis d = Some 0 ->
  seq_item !! key = Some (Chunker.Tensor x) ->
  cut c start items seq_item chunk0 = Some chunk ->
  chunk !! key
  = Some (Chunker.Tensor
            (Chunker.slice_pad_zeros zero x
               (start - Chunker.nd_get context_window key)
               (Z.min (start + c) (Chunker.shape0 x) + Chunker.nd_get context_window key)))
  /\ chunk !! size0_key key
     = Some (Chunker.Scalar
               (Z.min (start + c) (Chunker.shape0 x) - start
                + 2 * Chunker.nd_get context_window key)).
Proof.
  intros Hnd Hin Hkey Haxis Hx. revert chunk0.
  induction items as [|[k d'] items IH]; intros chunk0 Hcut; [by apply elem_of_nil in Hin|].
  simpl in Hnd. apply NoDup_cons in Hnd as [Hk_fresh Hnd].
  apply elem_of_cons in Hin as [Heq|Hin].
  - injection Heq as <- <-. simpl in Hcut.
    rewrite Hkey, Hx in Hcut. simpl in Hcut. rewrite Haxis in Hcut. simpl in Hcut.
    assert (Hkey_ne : size0_key key <> key) by by apply size0_key_not_plain.
    split.
    + rewrite (cut_keys_frame _ _ _ _ _ _ key Hcut).
      * rewrite lookup_insert_ne by done. by rewrite lookup_insert_eq.
      * intros k2 d2 Hin2 Hk2. split; [|by apply size0_key_not_plain].
        intros ->. apply Hk_fresh. apply list_elem_of_fmap. by exists (key, d2).
    + rewrite (cut_keys_frame _ _ _ _ _ _ (size0_key key) Hcut).
      * by rewrite lookup_insert_eq.
      * intros k2 d2 Hin2 Hk2. split.
        -- intros ->. by rewrite str_in_size0_key in Hk2.
        -- intros Heq. apply size0_key_inj in Heq as ->.
           apply Hk_fresh. apply list_elem_of_fmap. by exists (key, d2).
  - simpl in Hcut.
    destruct (str_in "/size" k); [by apply (IH Hnd Hin chunk0)|].
    destruct (seq_item !! k) as [v|]; simpl in Hcut; [|done].
    destruct (Chunker.time_dim_axis d') as [axis|].
    + destruct (axis =? 0); [|done]. destruct v; try done.
      by apply (IH Hnd Hin _ Hcut).
    + by apply (IH Hnd Hin _ Hcut).
Qed.

(** Whether the body succeeds does not depend on the start of the window. *)
Lemma cut_keys_is_Some (c start start' : Z) (items : list (string * Chunker.Data))
    (seq_item chunk0 chunk0' : record) :
  is_Some (cut c start items seq_item chunk0) ->
  is_Some (cut c start' items seq_item chunk0').
Proof.
  revert chunk0 chunk0'. induction items as [|[k d] items IH]; intros chunk0 chunk0' H;
    simpl in *; [done|].
  destruct (str_in "/size" k); [by eapply IH|].
  destruct (seq_item !! k) as [v|]; simpl in *; [|done].
  destruct (Chunker.time_dim_axis d) as [axis|]; [|by eapply IH].
  destruct (axis =? 0); [|done]. destruct v; try done. by eapply IH.
Qed.

Lemma chunk_loop_body_is_Some (c start start' : Z) (seq_item : record) :
  is_Some (body c seq_item start) -> is_Some (body c seq_item start').
Proof.
  unfold Chunker.chunk_loop_body.
  destruct (Chunker.copy_sizes (map_to_list extern_data) seq_item ∅) as [chunk|];
    simpl; [|done].
  apply cut_keys_is_Some.
Qed.


(** The windows the loop visits, from any start. *)
Lemma chunk_while_loop_from (c L : Z) (seq_item : record) (n : nat) :
  forall (start : Z) (fuel : nat),
  0 < chunk_step ->
  (n < fuel)%nat ->
  L <= start + Z.of_nat n * chunk_step ->
  (n = 0%nat \/ start + (Z.of_nat n - 1) * chunk_step < L) ->
  while fuel c seq_item L start
  = mapM (body c seq_item) ((fun k => start + Z.of_nat k * chunk_step) <$> seq 0 n).
Proof.
  induction n as [|n IH]; intros start fuel Hs Hfuel HL Hlast.
  - destruct fuel as [|fuel]; [lia|]. simpl.
    destruct (Z.ltb_spec start L); [lia | done].
  - destruct fuel as [|fuel]; [lia|]. simpl.
    destruct (Z.ltb_spec start L); [|nia].
    rewrite (IH (start + chunk_step) fuel) by (try lia; try nia).
    replace (start + Z.of_nat 0 * chunk_step) with start by lia.
    change (list_fmap nat Z ?f ?l) with (f <$> l).
    rewrite <- fmap_S_seq, <- list_fmap_compose.
    rewrite (list_fmap_ext (fun k => start + chunk_step + Z.of_nat k * chunk_step)
               ((fun k : nat => start + Z.of_nat k * chunk_step) ∘ S) (seq 0 n));
      [done|].
    intros i k _. simpl. lia.
Qed.



(** Without a chunk size, every sequence record is enqueued into the
    target queue as it was dequeued. *)
Lemma loop_op_forwards (sig : bool) (fuel : nat) (input : list record)
    (d : Chunker.Data) :
  extern_data !! Chunker.default_key = Some d ->
  Chunker.time_dim_axis_excluding_batch d = Some 0 ->
  Forall (fun seq_item => exists x, seq_item !! Chunker.default_key = Some (Chunker.Tensor x))
         input ->
  Chunker.loop_op zero extern_data None chunk_step context_window sig fuel input
  = Some input.
Proof.
  intros Hd Haxis Hin. induction Hin as [|seq_item input [x Hx] _ IH]; [done|].
  simpl. unfold Chunker.seq_loop_body. rewrite Hx, Hd. simpl.
  rewrite bool_decide_true by done. simpl. by rewrite IH.
Qed.


End ChunkerFacts.





(** ** The dataset reader *)

Section ReaderFacts.

Context {ndarray : Type}.
Variable np_shape : ndarray -> list Z.
Variable np_zeros : list (option Z) -> string -> ndarray.

Local Abbreviation reader := (@Reader.DatasetReader ndarray).
Local Abbreviation zero_value := (Reader.zero_value np_zeros).
Local Abbreviation zero_fill := (Reader.zero_fill np_zeros).
Local Abbreviation loop_body := (Reader.loop_body np_shape np_zeros).

Lemma zero_fill_lookup (r : reader) (keys : list string)
    (d0 d : gmap string Reader.value) (key : string) :
  zero_fill r keys d0 = Ok d ->
  (key ∈ keys -> exists v, zero_value r key = Ok v /\ d !! key = Some v)
  /\ (key ∉ keys -> d !! key = d0 !! key).
Proof.
  revert d0. induction keys as [|k keys IH]; intros d0 Hfill; simpl in Hfill.
  - injection Hfill as <-. split; [by intros ?%elem_of_nil | done].
  - destruct (zero_value r k) as [v|e] eqn:Hv; simpl in Hfill; [|done].
    destruct (IH _ Hfill) as [IHin IHout]. split.
    + intros Hin. destruct (decide (key ∈ keys)) as [Hrest|Hrest]; [by apply IHin|].
      apply elem_of_cons in Hin as [->|Hin]; [|done].
      exists v. split; [done|]. rewrite IHout by done. by rewrite lookup_insert_eq.
    + intros Hout. apply not_elem_of_cons in Hout as [Hne Hout].
      rewrite IHout by done. by rewrite lookup_insert_ne.
Qed.

Lemma zero_fill_ok (r : reader) (keys : list string) (d0 : gmap string Reader.value) :
  Forall (fun key => exists v, zero_value r key = Ok v) keys ->
  exists d, zero_fill r keys d0 = Ok d.
Proof.
  intros Hkeys. revert d0. induction Hkeys as [|k keys [v Hv] _ IH]; intros d0; simpl.
  - by exists d0.
  - rewrite Hv. simpl. apply IH.
Qed.


(** The loop body leaves the coordinator alone. *)
Lemma loop_body_coord (fuel : nat) (n : Z) (r : reader) :
  Reader.coord (fst (loop_body fuel n r)) = Reader.coord r.
Proof.
  revert n r. induction fuel as [|fuel IH]; intros n r; simpl; [done|].
  destruct (negb _).
  - destruct (Reader.with_epoch_end r); simpl; [|done].
    by destruct (Reader.make_end_of_epoch_dict _ _ _).
  - destruct (should_stop _); [done|].
    destruct (Reader.read_keys _ _ _ _ _); [|done].
    by rewrite IH.
Qed.

(** A fatal error in the reader's loop reaches the coordinator. *)
Lemma reader_loop_error (fuel : nat) (r r' : reader) (e : exn) :
  stop_event (Reader.coord r) = false ->
  exc_info_to_raise (Reader.coord r) = None ->
  loop_body fuel 0 r = (r', Reader.Failed e) ->
  Reader.coord (fst (Reader.loop np_shape np_zeros fuel r)) = MkCoordinator true (Some e).
Proof.
  intros Hstop Hexc Hbody. unfold Reader.loop, Reader.stop_on_exception.
  pose proof (loop_body_coord fuel 0 r) as Hcoord.
  rewrite Hbody in *. simpl in *. unfold request_stop.
  by rewrite Hcoord, Hstop, Hexc.
Qed.

End ReaderFacts.


(** The epoch-end record of that reader. *)
Example epoch_end_sentinel_value :
  Reader.loop_body Examples.ex_shape Examples.Zeros 1 2 Examples.reader_with_seq_idx
  = (Reader.feed_callback Examples.sentinel_with_seq_idx
       (Reader.set_finished 2 Examples.reader_with_seq_idx), Reader.Finished).
Proof. vm_compute. reflexivity. Qed.


(** ** The feed-dict data provider *)

Section FeedDictFacts.

Context {frame : Type}.
Variable zero : frame.

Local Abbreviation provider := (@FeedDict.FeedDictDataProvider frame).
Local Abbreviation buffers := (@FeedDict.buffers frame).

(** The loop of the thread touches neither the coordinator nor the
    flags and reports of the provider. *)
Lemma thread_loop_keeps (todo : list FeedDict.Batch) (p : provider) :
  FeedDict.coord (fst (FeedDict.thread_loop zero todo p)) = FeedDict.coord p
  /\ FeedDict.reported (fst (FeedDict.thread_loop zero todo p)) = FeedDict.reported p
  /\ FeedDict.reached_end (fst (FeedDict.thread_loop zero todo p)) = FeedDict.reached_end p
  /\ FeedDict.thread_finished (fst (FeedDict.thread_loop zero todo p))
     = FeedDict.thread_finished p.
Proof.
  revert p. induction todo as [|batch todo IH]; intros p; simpl; [done|].
  destruct (should_stop _); [done|].
  destruct (FeedDict.get_next_batch_buffers _ _ _ _ _) as [b [e|]]; [done|].
  unfold FeedDict.put. simpl.
  destruct (FeedDict.queue p) as [q|]; [|destruct (FeedDict.tf_queue p) as [t|]];
    simpl; [| |done].
  - destruct (IH (FeedDict.advance
       (FeedDict.MkProvider (FeedDict.coord p) (FeedDict.dataset p) (FeedDict.data_keys p)
          (FeedDict.batches p) (Some (q ++ [FeedDict.enqueue_args_of (FeedDict.data_keys p) b]))
          (FeedDict.tf_queue p) (FeedDict.thread_finished p) (FeedDict.reached_end p)
          (FeedDict.calls b) (FeedDict.reported p)))) as (-> & -> & -> & ->).
    done.
  - destruct (IH (FeedDict.advance
       (FeedDict.MkProvider (FeedDict.coord p) (FeedDict.dataset p) (FeedDict.data_keys p)
          (FeedDict.batches p) None
          (Some (t ++ [FeedDict.enqueue_args_of (FeedDict.data_keys p) b]))
          (FeedDict.thread_finished p) (FeedDict.reached_end p)
          (FeedDict.calls b) (FeedDict.reported p)))) as (-> & -> & -> & ->).
    done.
Qed.

(** A fatal error in the thread of the provider is reported and ends the
    thread, and the coordinator is not told. *)
Lemma thread_main_error (p p' : provider) (e : exn) :
  FeedDict.thread_loop zero (FeedDict.batches p) p = (p', Some e) ->
  FeedDict.coord (FeedDict.thread_main zero p) = FeedDict.coord p
  /\ FeedDict.reported (FeedDict.thread_main zero p) = FeedDict.reported p ++ [e]
  /\ FeedDict.thread_finished (FeedDict.thread_main zero p) = true
  /\ FeedDict.reached_end (FeedDict.thread_main zero p) = FeedDict.reached_end p.
Proof.
  intros Hloop. pose proof (thread_loop_keeps (FeedDict.batches p) p) as Hkeep.
  unfold FeedDict.thread_main. rewrite Hloop in *. simpl in *.
  by destruct Hkeep as (-> & -> & -> & _).
Qed.

(** What one run of the body for an entry and a key changes. *)
Lemma copy_key_skip (ds : FeedDict.Dataset) (seq : FeedDict.BatchSeq) (k : string)
    (b : buffers) :
  FeedDict.frame_length seq k = 0%nat -> FeedDict.copy_key ds seq k b = (b, None).
Proof. intros Hl. unfold FeedDict.copy_key. by rewrite Hl. Qed.

Lemma copy_key_frame (ds : FeedDict.Dataset) (seq : FeedDict.BatchSeq) (k : string)
    (b b' : buffers) :
  FeedDict.copy_key ds seq k b = (b', None) ->
  FeedDict.calls b' = FeedDict.calls b ++ FeedDict.key_calls seq [k]
  /\ forall k' q',
       k' <> k \/ q' <> FeedDict.batch_slice seq \/ FeedDict.frame_length seq k = 0%nat ->
       FeedDict.data_slice b' k' q' = FeedDict.data_slice b k' q'
       /\ FeedDict.seq_lens_slice b' k' q' = FeedDict.seq_lens_slice b k' q'.
Proof.
  unfold FeedDict.copy_key, FeedDict.key_calls. simpl.
  destruct (Nat.eqb_spec (FeedDict.frame_length seq k) 0) as [Hl|Hl].
  { intros [= <-]. by rewrite app_nil_r. }
  destruct (FeedDict.get_data_slice _ _ _ _ _) as [v|e]; [|done].
  destruct (negb _); [done|]. simpl.
  destruct (FeedDict.data b !! k) as [arr|] eqn:Harr; [|done].
  destruct (FeedDict.seq_lens b !! k) as [lens|] eqn:Hlens; [|done].
  unfold FeedDict.assign_slice.
  destruct (arr !! FeedDict.batch_slice seq) as [row|]; [|done]. simpl.
  destruct (FeedDict.assign_frames _ _ _) as [row'|e]; [|done]. simpl.
  destruct (lens !! FeedDict.batch_slice seq) as [cur|]; [|done].
  intros [= <-]. simpl. split; [done|].
  intros k' q' Hne. unfold FeedDict.data_slice, FeedDict.seq_lens_slice. simpl.
  destruct (decide (k' = k)) as [->|Hk].
  - rewrite !lookup_insert_eq, Harr, Hlens. simpl.
    destruct Hne as [?|[Hq|?]]; [done| |done].
    by rewrite !list_lookup_insert_ne.
  - by rewrite !lookup_insert_ne.
Qed.

Lemma copy_keys_frame (ds : FeedDict.Dataset) (seq : FeedDict.BatchSeq)
    (keys : list string) (b b' : buffers) :
  FeedDict.copy_keys ds seq keys b = (b', None) ->
  FeedDict.calls b' = FeedDict.calls b ++ FeedDict.key_calls seq keys
  /\ forall k' q',
       q' <> FeedDict.batch_slice seq \/ FeedDict.frame_length seq k' = 0%nat ->
       FeedDict.data_slice b' k' q' = FeedDict.data_slice b k' q'
       /\ FeedDict.seq_lens_slice b' k' q' = FeedDict.seq_lens_slice b k' q'.
Proof.
  revert b. induction keys as [|k keys IH]; intros b; simpl.
  - intros [= <-]. by rewrite app_nil_r.
  - destruct (FeedDict.copy_key ds seq k b) as [b1 [e|]] eqn:Hk; [done|].
    intros Hrest. apply copy_key_frame in Hk as [Hc1 Hs1].
    apply IH in Hrest as [Hc2 Hs2]. split.
    + rewrite Hc2, Hc1. unfold FeedDict.key_calls. simpl.
      by rewrite app_nil_r, <- app_assoc.
    + intros k' q' Hne. destruct (Hs2 k' q' Hne) as [-> ->].
      apply Hs1. destruct (decide (k' = k)) as [->|?]; [by right | by left].
Qed.

Lemma copy_seqs_frame (ds : FeedDict.Dataset) (keys : list string)
    (ss : list FeedDict.BatchSeq) (b b' : buffers) :
  FeedDict.copy_seqs ds keys ss b = (b', None) ->
  FeedDict.calls b' = FeedDict.calls b ++ FeedDict.slice_calls keys ss
  /\ forall k' q',
       (forall seq, seq ∈ ss -> FeedDict.batch_slice seq = q' ->
                    FeedDict.frame_length seq k' = 0%nat) ->
       FeedDict.data_slice b' k' q' = FeedDict.data_slice b k' q'
       /\ FeedDict.seq_lens_slice b' k' q' = FeedDict.seq_lens_slice b k' q'.
Proof.
  revert b. induction ss as [|seq ss IH]; intros b; simpl.
  - intros [= <-]. by rewrite app_nil_r.
  - destruct (FeedDict.copy_keys ds seq keys b) as [b1 [e|]] eqn:Hseq; [done|].
    intros Hrest. apply copy_keys_frame in Hseq as [Hc1 Hs1].
    apply IH in Hrest as [Hc2 Hs2]. split.
    + rewrite Hc2, Hc1. unfold FeedDict.slice_calls. simpl. by rewrite <- app_assoc.
    + intros k' q' Hzero. destruct (Hs2 k' q') as [-> ->].
      { intros seq' Hin. apply Hzero. by apply list_elem_of_further. }
      apply Hs1. destruct (decide (q' = FeedDict.batch_slice seq)) as [->|?]; [|by left].
      right. apply Hzero; [apply list_elem_of_here | done].
Qed.

(** The zero initialisation, slice by slice. *)
Lemma zeros_data_lookup (ds : FeedDict.Dataset) (batch : FeedDict.Batch)
    (keys : list string) (k : string) :
  k ∈ keys ->
  FeedDict.zeros_data zero ds batch keys !! k
  = Some (replicate (fst (FeedDict.shapes_for_batches ds batch k))
            (replicate (snd (FeedDict.shapes_for_batches ds batch k)) zero)).
Proof.
  induction keys as [|k0 keys IH]; intros Hin; [by apply elem_of_nil in Hin|]. simpl.
  destruct (decide (k0 = k)) as [->|Hne]; [by rewrite lookup_insert_eq|].
  rewrite lookup_insert_ne by done. apply IH.
  by apply elem_of_cons in Hin as [->|Hin].
Qed.

Lemma zeros_seq_lens_lookup (ds : FeedDict.Dataset) (batch : FeedDict.Batch)
    (keys : list string) (k : string) :
  k ∈ keys ->
  @FeedDict.zeros_seq_lens frame ds batch keys !! k
  = Some (replicate (fst (FeedDict.shapes_for_batches ds batch k)) 0%nat).
Proof.
  induction keys as [|k0 keys IH]; intros Hin; [by apply elem_of_nil in Hin|]. simpl.
  destruct (decide (k0 = k)) as [->|Hne]; [by rewrite lookup_insert_eq|].
  rewrite lookup_insert_ne by done. apply IH.
  by apply elem_of_cons in Hin as [->|Hin].
Qed.

(** C10, as amended.  In [_get_next_batch], [get_data_slice] is called
    exactly for the entries and keys whose frame length is not zero; for
    an entry and a key of frame length zero the body calls nothing and
    changes nothing; and the slice of the batch array and the entry of
    [seq_lens] of a key stay at their zero initialisation when every entry
    of the batch that is placed in that slice has frame length zero for
    the key. *)
Theorem zero_length_key_skipped (ds : FeedDict.Dataset) (keys : list string)
    (batch : FeedDict.Batch) (calls0 : list FeedDict.call) (b : buffers) :
  FeedDict.get_next_batch_buffers zero ds keys batch calls0 = (b, None) ->
  FeedDict.calls b
  = calls0 ++ FeedDict.LoadSeqs (FeedDict.start_seq batch) (FeedDict.end_seq batch)
             :: FeedDict.slice_calls keys (FeedDict.seqs batch)
  /\ (forall seq k (b0 : buffers),
        FeedDict.frame_length seq k = 0%nat -> FeedDict.copy_key ds seq k b0 = (b0, None))
  /\ (forall k q,
        k ∈ keys ->
        (q < fst (FeedDict.shapes_for_batches ds batch k))%nat ->
        (forall seq, seq ∈ FeedDict.seqs batch -> FeedDict.batch_slice seq = q ->
                     FeedDict.frame_length seq k = 0%nat) ->
        FeedDict.data_slice b k q
        = Some (replicate (snd (FeedDict.shapes_for_batches ds batch k)) zero)
        /\ FeedDict.seq_lens_slice b k q = Some 0%nat).
Proof.
  unfold FeedDict.get_next_batch_buffers. intros Hrun.
  apply copy_seqs_frame in Hrun as [Hcalls Hslices]. simpl in Hcalls.
  split; [by rewrite Hcalls, <- app_assoc|].
  split; [intros seq k b0; apply copy_key_skip|].
  intros k q Hk Hq Hzero. destruct (Hslices k q Hzero) as [-> ->].
  unfold FeedDict.data_slice, FeedDict.seq_lens_slice. simpl.
  rewrite zeros_data_lookup, zeros_seq_lens_lookup by done. simpl.
  by rewrite !lookup_replicate_2.
Qed.

End FeedDictFacts.

(** C10, the witness: the batch of the two entries in slice 0, for which
    [get_data_slice] is called three times, and never for ["classes"] of
    the first entry. *)
Lemma zero_length_key_skipped_witness :
  FeedDict.calls (fst (FeedDict.get_next_batch_buffers 0 Examples.sevens
                         ["classes"; "data"]%string Examples.shared_slice_batch []))
  = [] ++ FeedDict.LoadSeqs 0 2
          :: FeedDict.slice_calls ["classes"; "data"]%string
               (FeedDict.seqs Examples.shared_slice_batch).
Proof.
  destruct (zero_length_key_skipped 0 Examples.sevens ["classes"; "data"]%string
              Examples.shared_slice_batch []
              (fst (FeedDict.get_next_batch_buffers 0 Examples.sevens
                      ["classes"; "data"]%string Examples.shared_slice_batch [])))
    as (Hcalls & _).
  - vm_compute. reflexivity.
  - exact Hcalls.
Defined.

(** C10, as stated, fails.  The first entry of the batch has no frames of
    ["classes"], and nothing is fetched for it; the second entry lies in
    the same slice and has two, so that slice of the batch array and that
    entry of [seq_lens] do not stay zero. *)
Lemma zero_length_key_counterexample :
  FeedDict.frame_length Examples.first_entry "classes" = 0%nat
  /\ FeedDict.batch_slice Examples.first_entry = 0%nat
  /\ snd (FeedDict.get_next_batch_buffers 0 Examples.sevens ["classes"; "data"]%string
            Examples.shared_slice_batch []) = None
  /\ FeedDict.calls (fst (FeedDict.get_next_batch_buffers 0 Examples.sevens
                            ["classes"; "data"]%string Examples.shared_slice_batch []))
     = [FeedDict.LoadSeqs 0 2; FeedDict.GetDataSlice 0 "data" 0 2;
        FeedDict.GetDataSlice 1 "classes" 0 2; FeedDict.GetDataSlice 1 "data" 0 3]
  /\ FeedDict.seq_lens_slice
       (fst (FeedDict.get_next_batch_buffers 0 Examples.sevens ["classes"; "data"]%string
               Examples.shared_slice_batch [])) "classes" 0
     = Some 2%nat
  /\ FeedDict.data_slice
       (fst (FeedDict.get_next_batch_buffers 0 Examples.sevens ["classes"; "data"]%string
               Examples.shared_slice_batch [])) "classes" 0
     = Some [7; 7].
Proof. vm_compute. repeat split. Qed.

(** ** Errors in the background loops *)




(** ** The queue data provider *)

Lemma reduce_max_foldr (m : Z) (xs : list Z) :
  -2147483648 <= m ->
  Z.max m (QueueProvider.reduce_max xs) = foldr Z.max m xs.
Proof.
  intros Hm. unfold QueueProvider.reduce_max.
  induction xs as [|x xs IH]; simpl; lia.
Qed.

Lemma foldr_max_ge (m : Z) (xs : list Z) : m <= foldr Z.max m xs.
Proof. induction xs as [|x xs IH]; simpl; lia. Qed.

Lemma foldr_max_app (m : Z) (xs ys : list Z) :
  foldr Z.max m (xs ++ ys) = Z.max (foldr Z.max m xs) (foldr Z.max m ys).
Proof.
  pose proof (foldr_max_ge m ys).
  induction xs as [|x xs IH]; simpl; [|rewrite IH]; lia.
Qed.

Lemma last_seq_idx_var_dequeue_all (bs : list (list Z)) :
  QueueProvider.last_seq_idx_var (QueueProvider.dequeue_all bs QueueProvider.init_counters)
  = QueueProvider.max_seq_idx_seen bs.
Proof.
  unfold QueueProvider.max_seq_idx_seen, QueueProvider.dequeue_all.
  induction bs as [|b bs IH] using rev_ind; [done|].
  rewrite foldl_app, concat_app, foldr_max_app. simpl.
  rewrite IH, app_nil_r.
  pose proof (foldr_max_ge 0 (concat bs)).
  rewrite reduce_max_foldr by lia.
  pose proof (foldr_max_ge 0 b).
  assert (Hmono : forall m xs, 0 <= m -> foldr Z.max m xs = Z.max m (foldr Z.max 0 xs)).
  { intros m xs Hm. induction xs as [|x xs IHxs]; simpl; lia. }
  rewrite (Hmono (foldr Z.max 0 (concat bs))) by lia. done.
Qed.

(** C9.  [have_more_data] answers true while the final sequence count of
    the reader is not known, and once it is known to be [n], it answers
    whether [last_seq_idx + 1 < n], where [last_seq_idx] is the greatest
    sequence number in the batches taken out of the batching queue so
    far. *)
Theorem have_more_data_spec {ndarray : Type} (bs : list (list Z))
    (r : @Reader.DatasetReader ndarray) (last : option Z) :
  QueueProvider.have_more_data
    (QueueProvider.MkQueueDataProvider
       (QueueProvider.dequeue_all bs QueueProvider.init_counters) (Some r) last)
  = match Reader.final_num_seqs r with
    | None =>
        Ok (true,
            QueueProvider.MkQueueDataProvider
              (QueueProvider.dequeue_all bs QueueProvider.init_counters) (Some r) last)
    | Some n =>
        Ok (QueueProvider.max_seq_idx_seen bs + 1 <? n,
            QueueProvider.MkQueueDataProvider
              (QueueProvider.dequeue_all bs QueueProvider.init_counters) (Some r)
              (Some (QueueProvider.max_seq_idx_seen bs)))
    end.
Proof.
  unfold QueueProvider.have_more_data. simpl.
  destruct (Reader.final_num_seqs r) as [n|]; [|done].
  rewrite last_seq_idx_var_dequeue_all. do 2 f_equal.
  - destruct (Z.leb_spec n (QueueProvider.max_seq_idx_seen bs + 1));
      destruct (Z.ltb_spec (QueueProvider.max_seq_idx_seen bs + 1) n); simpl; (done || lia).
  - unfold QueueProvider.update_last_seq_idx. simpl.
    by rewrite last_seq_idx_var_dequeue_all.
Qed.

(** ** More on the batching queue *)

Section BatcherBudget.

Context {member : Type}.
Variable epoch_end : member -> bool.
Variable seq_len : member -> Z.
Variable batch_size : Z.
Variable max_seqs : Z.

Local Abbreviation step := (Batcher.make_enqueue_op epoch_end seq_len batch_size max_seqs).
Local Abbreviation run := (Batcher.loop epoch_end seq_len batch_size max_seqs).
Local Abbreviation max_len := (Batcher.max_member_length seq_len).

Lemma sum_snoc (nums : list Z) (n : Z) :
  foldr Z.add 0 (nums ++ [n]) = foldr Z.add 0 nums + n.
Proof. induction nums as [|k nums IH]; simpl; lia. Qed.

(** One step adds one to the members counted, and nothing for an epoch
    end. *)
Lemma step_counts (v : member) (st : Batcher.state member) :
  foldr Z.add 0 (Batcher.tf_batch_nums (snd (step v st)))
    + Batcher.cur_batch_num (snd (step v st))
  = foldr Z.add 0 (Batcher.tf_batch_nums st) + Batcher.cur_batch_num st
    + (if epoch_end v then 0 else 1).
Proof.
  destruct (epoch_end v) eqn:Hv.
  { rewrite step_epoch_end by done. simpl. rewrite sum_snoc. lia. }
  destruct (Z.le_gt_cases max_seqs (Batcher.cur_batch_num st + 1)) as [Hcap|Hcap].
  { rewrite step_cap by done. simpl. rewrite sum_snoc. lia. }
  destruct (Z.le_gt_cases 2 (Batcher.cur_batch_num st + 1)) as [H2|H2];
    [destruct (Z.lt_ge_cases batch_size
       (Z.max (Batcher.cur_max_seq_len st) (seq_len v) * (Batcher.cur_batch_num st + 1)))
       as [Hb|Hb] |].
  - rewrite step_budget by (done || lia). simpl. rewrite sum_snoc. lia.
  - rewrite step_admit by (done || lia). simpl. lia.
  - rewrite step_admit by (done || lia). simpl. lia.
Qed.


(** The maximal length of a batch with one more member. *)
Lemma max_member_length_ge (b : list member) : 0 <= max_len b.
Proof. unfold Batcher.max_member_length. induction b as [|v b IH]; simpl; lia. Qed.

Lemma max_member_length_snoc (b : list member) (v : member) :
  max_len (b ++ [v]) = Z.max (max_len b) (seq_len v).
Proof.
  pose proof (max_member_length_ge b) as Hge. unfold Batcher.max_member_length in *.
  induction b as [|u b IH]; simpl in *; [lia|].
  pose proof (max_member_length_ge b) as Hb. unfold Batcher.max_member_length in Hb.
  rewrite IH by done. lia.
Qed.

(** The batches and the pending members after each kind of step, while
    every member of the queue is accounted for. *)
Lemma batches_flush (nums : list Z) (k : Z) (q : list member) (v : member) :
  (Batcher.consumed nums <= length q)%nat ->
  Batcher.dequeue_batches (nums ++ [k]) (q ++ [v])
  = Batcher.dequeue_batches nums q
    ++ [take (Z.to_nat k) (drop (Batcher.consumed nums) q ++ [v])].
Proof.
  intros Hle. rewrite dequeue_batches_snoc, dequeue_batches_more by done.
  by rewrite drop_app_le by done.
Qed.

Lemma budget_step (v : member) (st : Batcher.state member) :
  epoch_end v = false ->
  0 <= seq_len v ->
  Batcher.accounted st ->
  Batcher.cur_max_seq_len st = max_len (Batcher.pending st) ->
  (2 <= Batcher.cur_batch_num st ->
   Batcher.cur_max_seq_len st * Batcher.cur_batch_num st <= batch_size) ->
  Forall (fun b => 2 <= Batcher.member_count b -> Batcher.member_count b < max_seqs ->
                   Batcher.member_count b * max_len b <= batch_size)
         (Batcher.batches st) ->
  Batcher.cur_max_seq_len (snd (step v st)) = max_len (Batcher.pending (snd (step v st)))
  /\ (2 <= Batcher.cur_batch_num (snd (step v st)) ->
      Batcher.cur_max_seq_len (snd (step v st)) * Batcher.cur_batch_num (snd (step v st))
      <= batch_size)
  /\ Forall (fun b => 2 <= Batcher.member_count b -> Batcher.member_count b < max_seqs ->
                      Batcher.member_count b * max_len b <= batch_size)
            (Batcher.batches (snd (step v st))).
Proof.
  intros Hv Hlen Hacc Hmax Hpend Hbatches.
  pose proof Hacc as [Hq Hn].
  pose proof (accounted_pending st Hacc) as Hcount.
  unfold Batcher.batches, Batcher.pending in *.
  destruct (Z.le_gt_cases max_seqs (Batcher.cur_batch_num st + 1)) as [Hcap|Hcap].
  { rewrite step_cap by done. simpl. rewrite consumed_snoc, batches_flush by lia.
    split; [|split; [lia|]].
    - rewrite drop_ge by (rewrite length_app; simpl; lia). done.
    - apply Forall_app. split; [done|]. constructor; [|constructor].
      intros _ Hlt. unfold Batcher.member_count in *.
      rewrite length_take, length_app, length_drop in Hlt. simpl in Hlt. lia. }
  destruct (Z.le_gt_cases 2 (Batcher.cur_batch_num st + 1)) as [H2|H2];
    [destruct (Z.lt_ge_cases batch_size
       (Z.max (Batcher.cur_max_seq_len st) (seq_len v) * (Batcher.cur_batch_num st + 1)))
       as [Hb|Hb] |].
  - rewrite step_budget by (done || lia). simpl.
    rewrite consumed_snoc, batches_flush by lia.
    assert (Htake : take (Z.to_nat (Batcher.cur_batch_num st))
                      (drop (Batcher.consumed (Batcher.tf_batch_nums st))
                         (Batcher.tf_out_queue st) ++ [v])
                    = drop (Batcher.consumed (Batcher.tf_batch_nums st))
                        (Batcher.tf_out_queue st)).
    { apply take_app_length'. rewrite length_drop. lia. }
    rewrite Htake. split; [|split; [lia|]].
    + rewrite drop_app_length' by lia.
      unfold Batcher.max_member_length. simpl. lia.
    + apply Forall_app. split; [done|]. constructor; [|constructor].
      intros Hge _. rewrite Hcount in *. rewrite <- Hmax.
      specialize (Hpend Hge). lia.
  - rewrite step_admit by (done || lia). simpl.
    rewrite dequeue_batches_more by lia. rewrite drop_app_le by lia.
    rewrite max_member_length_snoc, <- Hmax. split; [done|]. split; [|done]. lia.
  - rewrite step_admit by (done || lia). simpl.
    rewrite dequeue_batches_more by lia. rewrite drop_app_le by lia.
    rewrite max_member_length_snoc, <- Hmax. split; [done|]. split; [|done]. lia.
Qed.

Lemma budget_run (ms : list member) :
  Forall (fun m => epoch_end m = false) ms ->
  Forall (fun m => 0 <= seq_len m) ms ->
  Batcher.accounted (run ms Batcher.init)
  /\ Batcher.cur_max_seq_len (run ms Batcher.init)
     = max_len (Batcher.pending (run ms Batcher.init))
  /\ (2 <= Batcher.cur_batch_num (run ms Batcher.init) ->
      Batcher.cur_max_seq_len (run ms Batcher.init)
        * Batcher.cur_batch_num (run ms Batcher.init) <= batch_size)
  /\ Forall (fun b => 2 <= Batcher.member_count b -> Batcher.member_count b < max_seqs ->
                      Batcher.member_count b * max_len b <= batch_size)
            (Batcher.batches (run ms Batcher.init)).
Proof.
  induction ms as [|v ms IH] using rev_ind; intros Hms Hlens.
  - split; [apply accounted_init|]. split; [done|]. split; [simpl; lia | constructor].
  - apply Forall_app in Hms as [Hms Hv]. apply Forall_app in Hlens as [Hlens Hlv].
    apply Forall_inv in Hv. apply Forall_inv in Hlv.
    destruct (IH Hms Hlens) as (Hacc & Hmax & Hpend & Hb).
    rewrite run_app. change (run [v] ?st) with (snd (step v st)).
    split; [by apply accounted_step|]. by apply budget_step.
Qed.



End BatcherBudget.



(** ** More on the chunking queue runner *)

Section ChunkerMore.

Context {frame : Type}.
Variable zero : frame.
Variable extern_data : gmap string Chunker.Data.
Variable chunk_step : Z.
Variable context_window : Chunker.NumbersDict.

Local Abbreviation record := (gmap string (Chunker.value frame)).
Local Abbreviation body := (Chunker.chunk_loop_body zero extern_data context_window).
Local Abbreviation cut := (Chunker.cut_keys zero context_window).
Local Abbreviation while := (Chunker.chunk_while_loop zero extern_data chunk_step context_window).

(** What [copy_sizes] leaves alone. *)
Lemma copy_sizes_frame (items : list (string * Chunker.Data))
    (seq_item chunk0 chunk : record) (key' : string) :
  Chunker.copy_sizes items seq_item chunk0 = Some chunk ->
  key' ∉ items.*1 ->
  chunk !! key' = chunk0 !! key'.
Proof.
  revert chunk0. induction items as [|[k d] items IH]; intros chunk0 Hcopy Hnot;
    simpl in *.
  - by injection Hcopy as <-.
  - apply not_elem_of_cons in Hnot as [Hne Hnot].
    destruct (str_in "/size" k); [|by apply IH].
    destruct (seq_item !! k) as [v|]; simpl in Hcopy; [|done].
    rewrite (IH _ Hcopy Hnot). by rewrite lookup_insert_ne.
Qed.

(** What [cut_keys] writes for a key without a time axis. *)
Lemma cut_keys_passes (c start : Z) (items : list (string * Chunker.Data))
    (seq_item chunk0 chunk : record) (key : string) (d : Chunker.Data) :
  NoDup items.*1 ->
  (key, d) ∈ items ->
  str_in "/size" key = false ->
  Chunker.time_dim_axis d = None ->
  cut c start items seq_item chunk0 = Some chunk ->
  is_Some (seq_item !! key) /\ chunk !! key = seq_item !! key.
Proof.
  intros Hnd Hin Hkey Haxis. revert chunk0.
  induction items as [|[k d'] items IH]; intros chunk0 Hcut; [by apply elem_of_nil in Hin|].
  simpl in Hnd. apply NoDup_cons in Hnd as [Hk_fresh Hnd].
  apply elem_of_cons in Hin as [Heq|Hin].
  - injection Heq as <- <-. simpl in Hcut. rewrite Hkey in Hcut.
    destruct (seq_item !! key) as [v|] eqn:Hv; simpl in Hcut; [|done].
    rewrite Haxis in Hcut. split; [done|].
    rewrite (cut_keys_frame _ _ _ _ _ _ _ _ key Hcut).
    + by rewrite lookup_insert_eq.
    + intros k2 d2 Hin2 Hk2. split; [|by apply size0_key_not_plain].
      intros ->. apply Hk_fresh. apply list_elem_of_fmap. by exists (key, d2).
  - simpl in Hcut.
    destruct (str_in "/size" k); [by apply (IH Hnd Hin chunk0)|].
    destruct (seq_item !! k) as [v|]; simpl in Hcut; [|done].
    destruct (Chunker.time_dim_axis d') as [axis|].
    + destruct (axis =? 0); [|done]. destruct v; try done.
      by apply (IH Hnd Hin _ Hcut).
    + by apply (IH Hnd Hin _ Hcut).
Qed.

(** X7.  A key of the schema that has no time axis is not chunked: every
    chunk of a sequence holds the value that the sequence record has for
    it. *)
Lemma chunk_passes_key_without_time_axis (c seq_start : Z) (seq_item chunk : record)
    (key : string) (d : Chunker.Data) :
  extern_data !! key = Some d ->
  str_in "/size" key = false ->
  Chunker.time_dim_axis d = None ->
  Chunker.chunk_loop_body zero extern_data context_window c seq_item seq_start
  = Some chunk ->
  is_Some (seq_item !! key) /\ chunk !! key = seq_item !! key.
Proof.
  intros Hd Hkey Haxis Hbody. unfold Chunker.chunk_loop_body in Hbody.
  destruct (Chunker.copy_sizes (map_to_list extern_data) seq_item ∅) as [chunk0|];
    simpl in Hbody; [|done].
  eapply cut_keys_passes; try done.
  - apply NoDup_fst_map_to_list.
  - by apply elem_of_map_to_list.
Qed.

(** X8.  A chunk holds nothing of the sequence record beyond the schema:
    a key without ["/size"] in its name that [extern_data] does not have,
    such as [seq_idx] or [epoch_end] when they are not data keys, is not
    in the chunk. *)
Lemma chunk_drops_keys_outside_schema (c seq_start : Z) (seq_item chunk : record)
    (key : string) :
  extern_data !! key = None ->
  str_in "/size" key = false ->
  Chunker.chunk_loop_body zero extern_data context_window c seq_item seq_start
  = Some chunk ->
  chunk !! key = None.
Proof.
  intros Hnone Hkey Hbody. unfold Chunker.chunk_loop_body in Hbody.
  destruct (Chunker.copy_sizes (map_to_list extern_data) seq_item ∅) as [chunk0|] eqn:Hcopy;
    simpl in Hbody; [|done].
  rewrite (cut_keys_frame _ _ _ _ _ _ _ _ key Hbody).
  - rewrite (copy_sizes_frame _ _ _ _ key Hcopy); [done|].
    intros [[k d] [-> Hin]]%list_elem_of_fmap. simpl in Hnone.
    apply elem_of_map_to_list in Hin. by rewrite Hin in Hnone.
  - intros k d Hin Hk. split; [|by apply size0_key_not_plain].
    intros ->. apply elem_of_map_to_list in Hin. by rewrite Hin in Hnone.
Qed.

(** The window of a key with a time axis, in a chunk. *)
Lemma chunk_loop_body_window (c seq_start : Z) (seq_item chunk : record)
    (key : string) (d : Chunker.Data) (x : list frame) :
  extern_data !! key = Some d ->
  str_in "/size" key = false ->
  Chunker.time_dim_axis d = Some 0 ->
  seq_item !! key = Some (Chunker.Tensor x) ->
  body c seq_item seq_start = Some chunk ->
  chunk !! key
  = Some (Chunker.Tensor
            (Chunker.slice_pad_zeros zero x
               (seq_start - Chunker.nd_get context_window key)
               (Z.min (seq_start + c) (Chunker.shape0 x)
                + Chunker.nd_get context_window key))).
Proof.
  intros Hd Hkey Haxis Hx Hbody. unfold Chunker.chunk_loop_body in Hbody.
  destruct (Chunker.copy_sizes (map_to_list extern_data) seq_item ∅) as [chunk0|];
    simpl in Hbody; [|done].
  eapply (cut_keys_window zero context_window c seq_start (map_to_list extern_data));
    try done.
  - apply NoDup_fst_map_to_list.
  - by apply elem_of_map_to_list.
Qed.




End ChunkerMore.

(** X7, the witness: a schema with a key that has no time axis. *)
Lemma chunk_passes_key_without_time_axis_witness :
  is_Some (MoreExamples.tagged_seq !! "speaker"%string)
  /\ MoreExamples.tagged_chunk !! "speaker"%string
     = MoreExamples.tagged_seq !! "speaker"%string.
Proof.
  apply (chunk_passes_key_without_time_axis 0 MoreExamples.tagged_schema
           (Chunker.init_context_window Chunker.CwNone) 2 0
           MoreExamples.tagged_seq MoreExamples.tagged_chunk "speaker"
           (Chunker.MkData None None)).
  - reflexivity.
  - reflexivity.
  - reflexivity.
  - vm_compute. reflexivity.
Defined.

(** X8, the witness: the sequence number of the record is not in the
    chunk. *)
Lemma chunk_drops_keys_outside_schema_witness :
  MoreExamples.tagged_chunk !! "seq_idx"%string = None.
Proof.
  apply (chunk_drops_keys_outside_schema 0 MoreExamples.tagged_schema
           (Chunker.init_context_window Chunker.CwNone) 2 0
           MoreExamples.tagged_seq MoreExamples.tagged_chunk "seq_idx").
  - reflexivity.
  - reflexivity.
  - vm_compute. reflexivity.
Defined.




(** ** More on the dataset reader *)

(** No key with ["/size"] in it is one of the special keys, and a size key
    has ["/size"] in it. *)
Lemma str_in_app_l (sub s t : string) :
  str_in sub t = true -> str_in sub (s ++ t)%string = true.
Proof.
  intros Ht. induction s as [|a s IH]; simpl; [done|].
  rewrite IH. apply orb_true_r.
Qed.

Lemma str_in_size_key (key : string) (axis : nat) :
  str_in "/size" (Reader.size_key key axis) = true.
Proof.
  unfold Reader.size_key. apply str_in_app_l.
  destruct (pretty axis); vm_compute; reflexivity.
Qed.

Lemma size_key_not_plain (k key : string) (axis : nat) :
  str_in "/size" key = false -> Reader.size_key k axis <> key.
Proof. intros Hkey <-. by rewrite str_in_size_key in Hkey. Qed.

Lemma is_special_no_size (key : string) :
  Reader.is_special key = true -> str_in "/size" key = false.
Proof.
  unfold Reader.is_special, Reader.SpecialKeys. intros H%bool_decide_eq_true.
  repeat (apply elem_of_cons in H as [->|H]; [reflexivity|]).
  by apply elem_of_nil in H.
Qed.

(** A size key determines its key and its axis, for keys without
    ["/size"] in them. *)
Lemma string_app_cons (c : ascii) (s t : string) :
  (String c s ++ t)%string = String c (s ++ t)%string.
Proof. reflexivity. Qed.

Lemma string_app_nil (t : string) : (EmptyString ++ t)%string = t.
Proof. reflexivity. Qed.

Lemma prefix_cons (a b : ascii) (s t : string) :
  String.prefix (String a s) (String b t)
  = if ascii_dec a b then String.prefix s t else false.
Proof. reflexivity. Qed.

Lemma prefix_size_app (k t : string) :
  str_in "/size" k = false ->
  String.prefix "/size" (k ++ "/size" ++ t)%string = true -> k = EmptyString.
Proof.
  intros Hk Hp.
  destruct k as [|c1 [|c2 [|c3 [|c4 [|c5 k]]]]]; [done| | | | |];
    rewrite ?string_app_cons, ?string_app_nil in Hp;
    repeat (rewrite prefix_cons in Hp;
            match type of Hp with
            | context [ascii_dec ?a ?b] =>
                destruct (ascii_dec a b) as [e|]; [try discriminate e; subst|discriminate]
            end); try discriminate.
  exfalso. cbn [str_in] in Hk. apply orb_false_elim in Hk as [Hk _].
  repeat (rewrite prefix_cons in Hk;
          match type of Hk with
          | context [ascii_dec ?a ?b] => destruct (ascii_dec a b); [|done]
          end).
  by destruct k.
Qed.

Lemma str_in_tail (sub : string) (a : ascii) (s : string) :
  str_in sub (String a s) = false -> str_in sub s = false.
Proof. simpl. by intros [_ H]%orb_false_elim. Qed.

Lemma app_size_inj (k1 k2 t1 t2 : string) :
  str_in "/size" k1 = false -> str_in "/size" k2 = false ->
  (k1 ++ "/size" ++ t1 = k2 ++ "/size" ++ t2)%string -> k1 = k2 /\ t1 = t2.
Proof.
  revert k2. induction k1 as [|a k1 IH]; intros [|b k2] H1 H2 Heq.
  - split; [done|]. rewrite !string_app_nil in Heq. by simplify_eq.
  - exfalso. assert (String b k2 = EmptyString); [|done].
    apply (prefix_size_app _ t2 H2). rewrite <- Heq. by destruct t1.
  - exfalso. assert (String a k1 = EmptyString); [|done].
    apply (prefix_size_app _ t1 H1). rewrite Heq. by destruct t2.
  - rewrite !string_app_cons in Heq. injection Heq as -> Heq.
    apply str_in_tail in H1, H2. destruct (IH k2 H1 H2 Heq) as [-> ->]. done.
Qed.

Lemma size_key_inj (k1 k2 : string) (a1 a2 : nat) :
  str_in "/size" k1 = false -> str_in "/size" k2 = false ->
  Reader.size_key k1 a1 = Reader.size_key k2 a2 -> k1 = k2 /\ a1 = a2.
Proof.
  intros H1 H2 Heq. unfold Reader.size_key in Heq.
  destruct (app_size_inj _ _ _ _ H1 H2 Heq) as [-> Hp]. split; [done|].
  by apply (inj pretty).
Qed.

Section ReaderMoreFacts.

Context {ndarray : Type}.
Variable np_shape : ndarray -> list Z.
Variable np_zeros : list (option Z) -> string -> ndarray.

Local Abbreviation reader := (@Reader.DatasetReader ndarray).
Local Abbreviation read_keys := (Reader.read_keys np_shape).

(** What the two loops that fill a record leave alone. *)
Lemma put_sizes_frame (key : string) (a : ndarray) (axes : list nat)
    (d0 d : gmap string Reader.value) (key' : string) :
  Reader.put_sizes np_shape key a axes d0 = Ok d ->
  (forall axis, axis ∈ axes -> Reader.size_key key axis <> key') ->
  d !! key' = d0 !! key'.
Proof.
  revert d0. induction axes as [|axis axes IH]; intros d0 Hput Hne; simpl in Hput.
  - by injection Hput as <-.
  - destruct (np_shape a !! axis) as [n|]; [|done].
    rewrite (IH _ Hput) by (intros ax Hax; apply Hne; by apply list_elem_of_further).
    rewrite lookup_insert_ne; [done|]. apply Hne. apply list_elem_of_here.
Qed.

Lemma read_keys_frame (ds : Reader.Dataset) (seq_idx : Z)
    (items : list (string * Reader.Data)) (d0 d : gmap string Reader.value)
    (key' : string) :
  read_keys ds seq_idx items d0 = Ok d ->
  (forall k dt, (k, dt) ∈ items -> Reader.is_special k = false ->
                k <> key'
                /\ forall axis, axis ∈ Reader.axes_with_size dt ->
                                Reader.size_key k axis <> key') ->
  d !! key' = d0 !! key'.
Proof.
  revert d0. induction items as [|[k dt] items IH]; intros d0 Hread Hne; simpl in Hread.
  - by injection Hread as <-.
  - assert (Hrest : forall k dt, (k, dt) ∈ items -> Reader.is_special k = false ->
                      k <> key'
                      /\ forall axis, axis ∈ Reader.axes_with_size dt ->
                                      Reader.size_key k axis <> key').
    { intros k2 dt2 Hin Hk2. apply (Hne k2 dt2); [by apply list_elem_of_further | done]. }
    destruct (Reader.is_special k) eqn:Hk; [exact (IH _ Hread Hrest)|].
    destruct (Hne k dt (list_elem_of_here _ _) Hk) as [Hk1 Hk2].
    destruct (Reader.get_data ds seq_idx k) as [a|e]; simpl in Hread; [|done].
    destruct (Reader.put_sizes np_shape k a (Reader.axes_with_size dt) (<[k:=Reader.Array a]> d0))
      as [d1|e] eqn:Hput; simpl in Hread; [|done].
    rewrite (IH _ Hread Hrest). rewrite (put_sizes_frame _ _ _ _ _ _ Hput Hk2).
    by rewrite lookup_insert_ne.
Qed.

(** What [read_keys] writes for a data key. *)
Lemma read_keys_data (ds : Reader.Dataset) (seq_idx : Z)
    (items : list (string * Reader.Data)) (d0 d : gmap string Reader.value)
    (key : string) (dt : Reader.Data) :
  NoDup items.*1 ->
  (key, dt) ∈ items ->
  Reader.is_special key = false ->
  str_in "/size" key = false ->
  read_keys ds seq_idx items d0 = Ok d ->
  exists a, Reader.get_data ds seq_idx key = Ok a /\ d !! key = Some (Reader.Array a).
Proof.
  intros Hnd Hin Hsp Hkey. revert d0.
  induction items as [|[k dt'] items IH]; intros d0 Hread; [by apply elem_of_nil in Hin|].
  simpl in Hnd. apply NoDup_cons in Hnd as [Hk_fresh Hnd].
  apply elem_of_cons in Hin as [Heq|Hin].
  - injection Heq as <- <-. simpl in Hread. rewrite Hsp in Hread.
    destruct (Reader.get_data ds seq_idx key) as [a|e]; simpl in Hread; [|done].
    destruct (Reader.put_sizes np_shape key a (Reader.axes_with_size dt)
                (<[key:=Reader.Array a]> d0)) as [d1|e] eqn:Hput; simpl in Hread; [|done].
    exists a. split; [done|].
    rewrite (read_keys_frame _ _ _ _ _ key Hread).
    + rewrite (put_sizes_frame _ _ _ _ _ key Hput).
      * by rewrite lookup_insert_eq.
      * intros axis _. by apply size_key_not_plain.
    + intros k2 dt2 Hin2 Hk2. split.
      * intros ->. apply Hk_fresh. apply list_elem_of_fmap. by exists (key, dt2).
      * intros axis _. by apply size_key_not_plain.
  - simpl in Hread. destruct (Reader.is_special k); [by apply (IH Hnd Hin d0)|].
    destruct (Reader.get_data ds seq_idx k) as [a|e]; simpl in Hread; [|done].
    destruct (Reader.put_sizes np_shape k a (Reader.axes_with_size dt')
                (<[k:=Reader.Array a]> d0)) as [d1|e]; simpl in Hread; [|done].
    by apply (IH Hnd Hin d1).
Qed.

(** X12.  The record of a sequence holds, for every data key of
    [extern_data] that is no special key and has no ["/size"] in its name,
    the array that the dataset gave for that sequence and key; [seq_idx],
    [seq_tag] and [epoch_end] come from the options alone: the sequence
    number, the tag of the dataset and false when the option is on, and no
    entry when it is off, also when [extern_data] lists the key. *)
Lemma seq_record_entries (r : reader) (seq_idx : Z) (d : gmap string Reader.value) :
  ReaderMore.seq_record np_shape r seq_idx = Ok d ->
  (forall key dt,
      Reader.extern_data r !! key = Some dt ->
      Reader.is_special key = false ->
      str_in "/size" key = false ->
      exists a, Reader.get_data (Reader.dataset r) seq_idx key = Ok a
                /\ d !! key = Some (Reader.Array a))
  /\ d !! "seq_idx"%string
     = (if Reader.with_seq_idx r then Some (Reader.Int seq_idx) else None)
  /\ d !! "seq_tag"%string
     = (if Reader.with_seq_tag r
        then Some (Reader.Str (Reader.get_tag (Reader.dataset r) seq_idx)) else None)
  /\ d !! "epoch_end"%string
     = (if Reader.with_epoch_end r then Some (Reader.Bool false) else None).
Proof.
  unfold ReaderMore.seq_record. intros Hrec.
  destruct (read_keys (Reader.dataset r) seq_idx (map_to_list (Reader.extern_data r)) ∅)
    as [d0|e] eqn:Hread; simpl in Hrec; [|done].
  injection Hrec as <-.
  assert (Hspecial : forall key', Reader.is_special key' = true -> d0 !! key' = None).
  { intros key' Hsp. rewrite (read_keys_frame _ _ _ _ _ key' Hread); [done|].
    intros k dt _ Hk. split; [by intros -> ; rewrite Hsp in Hk|].
    intros axis _. apply size_key_not_plain. by apply is_special_no_size. }
  split; [|split; [|split]].
  - intros key dt Hkey Hsp Hsize.
    destruct (read_keys_data _ _ _ _ _ key dt (NoDup_fst_map_to_list _)
                (proj2 (elem_of_map_to_list _ _ _) Hkey) Hsp Hsize Hread) as (a & Ha & Hd).
    exists a. split; [done|].
    assert (key <> "seq_tag"%string /\ key <> "seq_idx"%string /\ key <> "epoch_end"%string)
      as (? & ? & ?) by (repeat split; intros ->; done).
    destruct (Reader.with_epoch_end r), (Reader.with_seq_idx r), (Reader.with_seq_tag r);
      by rewrite ?lookup_insert_ne.
  - pose proof (Hspecial "seq_idx"%string eq_refl).
    destruct (Reader.with_epoch_end r), (Reader.with_seq_idx r), (Reader.with_seq_tag r);
      by rewrite ?(lookup_insert_ne _ "epoch_end" "seq_idx"), ?lookup_insert_eq,
                 ?(lookup_insert_ne _ "seq_tag" "seq_idx").
  - pose proof (Hspecial "seq_tag"%string eq_refl).
    destruct (Reader.with_epoch_end r), (Reader.with_seq_idx r), (Reader.with_seq_tag r);
      by rewrite ?(lookup_insert_ne _ "epoch_end" "seq_tag"),
                 ?(lookup_insert_ne _ "seq_idx" "seq_tag"), ?lookup_insert_eq.
  - pose proof (Hspecial "epoch_end"%string eq_refl).
    destruct (Reader.with_epoch_end r), (Reader.with_seq_idx r), (Reader.with_seq_tag r);
      by rewrite ?lookup_insert_eq, ?(lookup_insert_ne _ "seq_idx" "epoch_end"),
                 ?(lookup_insert_ne _ "seq_tag" "epoch_end").
Qed.

(** What the two loops write for a size entry. *)
Lemma put_sizes_entry (key : string) (a : ndarray) (axes : list nat)
    (d0 d : gmap string Reader.value) (axis : nat) :
  str_in "/size" key = false ->
  Reader.put_sizes np_shape key a axes d0 = Ok d ->
  axis ∈ axes ->
  exists n, np_shape a !! axis = Some n
            /\ d !! Reader.size_key key axis = Some (Reader.Int n).
Proof.
  intros Hkey. revert d0. induction axes as [|ax axes IH]; intros d0 Hput Hin;
    [by apply elem_of_nil in Hin|].
  simpl in Hput. destruct (np_shape a !! ax) as [n|] eqn:Hn; [|done].
  destruct (decide (axis ∈ axes)) as [Hrest|Hrest]; [by apply (IH _ Hput)|].
  apply elem_of_cons in Hin as [->|Hin]; [|done].
  exists n. split; [done|].
  rewrite (put_sizes_frame _ _ _ _ _ _ Hput).
  - by rewrite lookup_insert_eq.
  - intros ax' Hax' Heq. apply size_key_inj in Heq as [_ ->]; done.
Qed.

Lemma read_keys_size (ds : Reader.Dataset) (seq_idx : Z)
    (items : list (string * Reader.Data)) (d0 d : gmap string Reader.value)
    (key : string) (dt : Reader.Data) (axis : nat) :
  NoDup items.*1 ->
  Forall (fun kv => str_in "/size" kv.1 = false) items ->
  (key, dt) ∈ items ->
  Reader.is_special key = false ->
  axis ∈ Reader.axes_with_size dt ->
  read_keys ds seq_idx items d0 = Ok d ->
  exists a n, Reader.get_data ds seq_idx key = Ok a
              /\ np_shape a !! axis = Some n
              /\ d !! Reader.size_key key axis = Some (Reader.Int n).
Proof.
  intros Hnd Hall Hin Hsp Hax. revert d0.
  induction items as [|[k dt'] items IH]; intros d0 Hread; [by apply elem_of_nil in Hin|].
  simpl in Hnd. apply NoDup_cons in Hnd as [Hk_fresh Hnd].
  apply Forall_cons in Hall as [Hk_size Hall]. simpl in Hk_size.
  apply elem_of_cons in Hin as [Heq|Hin].
  - injection Heq as <- <-. simpl in Hread. rewrite Hsp in Hread.
    destruct (Reader.get_data ds seq_idx key) as [a|e]; simpl in Hread; [|done].
    destruct (Reader.put_sizes np_shape key a (Reader.axes_with_size dt)
                (<[key:=Reader.Array a]> d0)) as [d1|e] eqn:Hput; simpl in Hread; [|done].
    destruct (put_sizes_entry _ _ _ _ _ axis Hk_size Hput Hax) as (n & Hn & Hd1).
    exists a, n. split; [done|]. split; [done|].
    rewrite (read_keys_frame _ _ _ _ _ _ Hread); [done|].
    intros k2 dt2 Hin2 Hk2.
    assert (Hk2_size : str_in "/size" k2 = false).
    { by apply (proj1 (Forall_forall _ _) Hall (k2, dt2)). }
    split.
    + intros ->. by rewrite str_in_size_key in Hk2_size.
    + intros ax2 _ Heq. apply size_key_inj in Heq as [-> _]; [|done..].
      apply Hk_fresh. apply list_elem_of_fmap. by exists (key, dt2).
  - simpl in Hread. destruct (Reader.is_special k); [by apply (IH Hnd Hall Hin d0)|].
    destruct (Reader.get_data ds seq_idx k) as [a|e]; simpl in Hread; [|done].
    destruct (Reader.put_sizes np_shape k a (Reader.axes_with_size dt')
                (<[k:=Reader.Array a]> d0)) as [d1|e]; simpl in Hread; [|done].
    by apply (IH Hnd Hall Hin d1).
Qed.

(** X15.  When no key of [extern_data] has ["/size"] in its name, the
    record of a sequence holds, for every data key and every axis of it
    that has a size, the extent of the dataset's array along that axis
    under ["<key>/size<axis>"]. *)
Lemma seq_record_size_entries (r : reader) (seq_idx : Z) (d : gmap string Reader.value)
    (key : string) (dt : Reader.Data) (axis : nat) :
  (forall k dt', Reader.extern_data r !! k = Some dt' -> str_in "/size" k = false) ->
  ReaderMore.seq_record np_shape r seq_idx = Ok d ->
  Reader.extern_data r !! key = Some dt ->
  Reader.is_special key = false ->
  axis ∈ Reader.axes_with_size dt ->
  exists a n, Reader.get_data (Reader.dataset r) seq_idx key = Ok a
              /\ np_shape a !! axis = Some n
              /\ d !! Reader.size_key key axis = Some (Reader.Int n).
Proof.
  unfold ReaderMore.seq_record. intros Hall Hrec Hkey Hsp Hax.
  destruct (read_keys (Reader.dataset r) seq_idx (map_to_list (Reader.extern_data r)) ∅)
    as [d0|e] eqn:Hread; simpl in Hrec; [|done].
  injection Hrec as <-.
  assert (Hitems : Forall (fun kv => str_in "/size" kv.1 = false)
                      (map_to_list (Reader.extern_data r))).
  { apply Forall_forall. intros [k dt'] Hin%elem_of_map_to_list. by apply (Hall k dt'). }
  apply elem_of_map_to_list in Hkey.
  destruct (read_keys_size _ _ _ _ _ key dt axis
              (NoDup_fst_map_to_list (Reader.extern_data r)) Hitems Hkey Hsp Hax Hread)
    as (a & n & Ha & Hn & Hd).
  exists a, n. split; [done|]. split; [done|].
  assert (Reader.size_key key axis <> "seq_tag"%string
          /\ Reader.size_key key axis <> "seq_idx"%string
          /\ Reader.size_key key axis <> "epoch_end"%string) as (? & ? & ?)
    by (repeat split; by apply size_key_not_plain).
  destruct (Reader.with_epoch_end r), (Reader.with_seq_idx r), (Reader.with_seq_tag r);
    by rewrite ?lookup_insert_ne.
Qed.

(** The epoch-end record depends on the schema, on [dict_keys] and on the
    [seq_idx] option only. *)
Lemma zero_fill_ext (r1 r2 : reader) (keys : list string) (d : gmap string Reader.value) :
  Reader.extern_data r1 = Reader.extern_data r2 ->
  Reader.zero_fill np_zeros r1 keys d = Reader.zero_fill np_zeros r2 keys d.
Proof.
  intros Hext. revert d. induction keys as [|key keys IH]; intros d; simpl; [done|].
  assert (Hv : Reader.zero_value np_zeros r1 key = Reader.zero_value np_zeros r2 key).
  { unfold Reader.zero_value, Reader.get_dtype_for_key, Reader.get_shape_for_key.
    by rewrite Hext. }
  rewrite Hv. destruct (Reader.zero_value np_zeros r2 key); simpl; [apply IH | done].
Qed.

Lemma make_end_of_epoch_dict_ext (r1 r2 : reader) (seq_idx : Z) :
  Reader.extern_data r1 = Reader.extern_data r2 ->
  Reader.dict_keys r1 = Reader.dict_keys r2 ->
  Reader.with_seq_idx r1 = Reader.with_seq_idx r2 ->
  Reader.make_end_of_epoch_dict np_zeros r1 seq_idx
  = Reader.make_end_of_epoch_dict np_zeros r2 seq_idx.
Proof.
  intros Hext Hkeys Hidx. unfold Reader.make_end_of_epoch_dict.
  by rewrite (zero_fill_ext r1 r2), Hkeys, Hidx.
Qed.

(** The turns of the loop from the sequence [n] on, when [k] sequences
    are left. *)
Lemma loop_body_delivers (k : nat) :
  forall (n : Z) (r : reader) (fuel : nat),
  (k < fuel)%nat ->
  stop_event (Reader.coord r) = false ->
  (forall i, n <= i < n + Z.of_nat k ->
             Reader.is_less_than_num_seqs (Reader.dataset r) i = true) ->
  Reader.is_less_than_num_seqs (Reader.dataset r) (n + Z.of_nat k) = false ->
  (forall i, n <= i < n + Z.of_nat k ->
             exists d, ReaderMore.seq_record np_shape r i = Ok d) ->
  (Reader.with_epoch_end r = true ->
   exists s, Reader.make_end_of_epoch_dict np_zeros r (n + Z.of_nat k) = Ok s) ->
  exists (ds tail : list (gmap string Reader.value)),
    snd (Reader.loop_body np_shape np_zeros fuel n r) = Reader.Finished
    /\ Reader.fed (fst (Reader.loop_body np_shape np_zeros fuel n r))
       = Reader.fed r ++ ds ++ tail
    /\ Reader.final_num_seqs (fst (Reader.loop_body np_shape np_zeros fuel n r))
       = Some (n + Z.of_nat k)
    /\ Reader.finished_iterating_seqs (fst (Reader.loop_body np_shape np_zeros fuel n r))
       = true
    /\ length ds = k
    /\ (forall j : nat, (j < k)%nat ->
          exists d, ds !! j = Some d
                    /\ ReaderMore.seq_record np_shape r (n + Z.of_nat j) = Ok d)
    /\ (if Reader.with_epoch_end r
        then exists s, Reader.make_end_of_epoch_dict np_zeros r (n + Z.of_nat k) = Ok s
                       /\ tail = [s]
        else tail = []).
Proof.
  induction k as [|k IH]; intros n r fuel Hfuel Hstop Hless Hend Hrec Hsent.
  - destruct fuel as [|fuel]; [lia|].
    replace (n + Z.of_nat 0) with n in * by lia. simpl. rewrite Hend. simpl.
    destruct (Reader.with_epoch_end r) eqn:Hee.
    + destruct (Hsent eq_refl) as [s Hs].
      rewrite (make_end_of_epoch_dict_ext (Reader.set_finished n r) r) by done.
      rewrite Hs. exists [], [s]. simpl.
      repeat split; try done; [lia | by exists s].
    + exists [], []. simpl. rewrite app_nil_r. repeat split; try done. lia.
  - destruct fuel as [|fuel]; [lia|]. simpl.
    rewrite (Hless n) by lia. simpl. unfold should_stop. rewrite Hstop.
    destruct (Hrec n ltac:(lia)) as [d Hd]. unfold ReaderMore.seq_record in Hd.
    destruct (Reader.read_keys np_shape (Reader.dataset r) n
                (map_to_list (Reader.extern_data r)) ∅) as [d0|e] eqn:Hread;
      simpl in Hd; [|done].
    injection Hd as Hd.
    rewrite Hd.
    destruct (IH (n + 1) (Reader.feed_callback d r) fuel) as
      (ds & tail & Hfin & Hfed & Hnum & Hflag & Hlen & Hds & Htail).
    + lia.
    + exact Hstop.
    + intros i Hi. apply Hless. lia.
    + replace (n + 1 + Z.of_nat k) with (n + Z.of_nat (S k)) by lia. exact Hend.
    + intros i Hi. apply (Hrec i). lia.
    + replace (n + 1 + Z.of_nat k) with (n + Z.of_nat (S k)) by lia.
      rewrite (make_end_of_epoch_dict_ext (Reader.feed_callback d r) r) by done.
      exact Hsent.
    + exists (d :: ds), tail.
      replace (n + 1 + Z.of_nat k) with (n + Z.of_nat (S k)) in * by lia.
      rewrite (make_end_of_epoch_dict_ext (Reader.feed_callback d r) r) in Htail by done.
      split; [done|]. split; [rewrite Hfed; simpl; by rewrite <- app_assoc|].
      split; [done|]. split; [done|]. split; [simpl; by rewrite Hlen|].
      split; [|exact Htail].
      intros [|j] Hj.
      * exists d. split; [done|]. replace (n + Z.of_nat 0) with n by lia.
        unfold ReaderMore.seq_record. rewrite Hread. simpl. by rewrite Hd.
      * destruct (Hds j ltac:(lia)) as (dj & Hdj & Hrj). exists dj. split; [done|].
        replace (n + Z.of_nat (S j)) with (n + 1 + Z.of_nat j) by lia. exact Hrj.
Qed.


(** Once the coordinator asks to stop while sequences are left, the loop
    ends at its next turn. *)
Lemma reader_loop_stop_requested (fuel : nat) (n : Z) (r : reader) :
  stop_event (Reader.coord r) = true ->
  Reader.is_less_than_num_seqs (Reader.dataset r) n = true ->
  Reader.loop_body np_shape np_zeros (S fuel) n r = (r, Reader.Finished).
Proof.
  intros Hstop Hless. simpl. rewrite Hless. simpl. unfold should_stop. by rewrite Hstop.
Qed.

(** X14.  When the coordinator asks to stop before a dataset that has
    sequences is read, [loop] ends without an error and leaves the reader
    as it was: nothing is fed, neither a sequence nor an epoch-end record,
    and [final_num_seqs] is not set.  [have_more_data] of the queue data
    provider then answers true, whatever went through the batching queue. *)
Lemma stopped_reader_has_more_data (fuel : nat) (r : reader)
    (c : QueueProvider.counters) (last : option Z) :
  stop_event (Reader.coord r) = true ->
  Reader.is_less_than_num_seqs (Reader.dataset r) 0 = true ->
  Reader.final_num_seqs r = None ->
  Reader.loop np_shape np_zeros (S fuel) r = (r, Reader.Finished)
  /\ QueueProvider.have_more_data
       (QueueProvider.MkQueueDataProvider c
          (Some (fst (Reader.loop np_shape np_zeros (S fuel) r))) last)
     = Ok (true, QueueProvider.MkQueueDataProvider c (Some r) last).
Proof.
  intros Hstop Hless Hnum.
  assert (Hloop : Reader.loop np_shape np_zeros (S fuel) r = (r, Reader.Finished)).
  { unfold Reader.loop. by rewrite reader_loop_stop_requested. }
  split; [done|]. rewrite Hloop. unfold QueueProvider.have_more_data. simpl.
  by rewrite Hnum.
Qed.

End ReaderMoreFacts.

(** X12, the witness: the first record of the reader of two sequences. *)
Lemma seq_record_entries_witness :
  (exists a, Reader.get_data Examples.two_seqs 0 "data" = Ok a
             /\ MoreExamples.first_record !! "data"%string = Some (Reader.Array a))
  /\ MoreExamples.first_record !! "seq_idx"%string = Some (Reader.Int 0).
Proof.
  destruct (seq_record_entries Examples.ex_shape Examples.reader_with_seq_idx 0
              MoreExamples.first_record) as (Hdata & Hidx & _).
  - vm_compute. reflexivity.
  - split; [|exact Hidx].
    apply (Hdata "data"%string (Reader.MkData "int32" [Some 2] "int32" [0%nat]));
      reflexivity.
Defined.

(** X15, the witness: the size of the first axis of ["data"] in that
    record. *)
Lemma seq_record_size_entries_witness :
  exists (a : Examples.ex_array) (n : Z),
    Reader.get_data Examples.two_seqs 0 "data" = Ok a
    /\ Examples.ex_shape a !! 0%nat = Some n
    /\ MoreExamples.first_record !! Reader.size_key "data" 0 = Some (Reader.Int n).
Proof.
  apply (seq_record_size_entries Examples.ex_shape Examples.reader_with_seq_idx 0
           MoreExamples.first_record "data"
           (Reader.MkData "int32" [Some 2] "int32" [0%nat]) 0%nat).
  - intros k dt' Hk. simpl in Hk. unfold Examples.reader_schema in Hk.
    apply lookup_singleton_Some in Hk as [<- _]. reflexivity.
  - vm_compute. reflexivity.
  - reflexivity.
  - reflexivity.
  - apply list_elem_of_here.
Defined.


(** X14, the witness: the reader of two sequences, asked to stop. *)
Lemma stopped_reader_has_more_data_witness :
  Reader.loop Examples.ex_shape Examples.Zeros 3 MoreExamples.stopped_reader
  = (MoreExamples.stopped_reader, Reader.Finished)
  /\ QueueProvider.have_more_data
       (QueueProvider.MkQueueDataProvider QueueProvider.init_counters
          (Some (fst (Reader.loop Examples.ex_shape Examples.Zeros 3
                        MoreExamples.stopped_reader))) None)
     = Ok (true, QueueProvider.MkQueueDataProvider QueueProvider.init_counters
                   (Some MoreExamples.stopped_reader) None).
Proof.
  apply (stopped_reader_has_more_data Examples.ex_shape Examples.Zeros 2
           MoreExamples.stopped_reader QueueProvider.init_counters None); reflexivity.
Defined.

(** ** The constructor of the dataset reader *)

Lemma get_keys_items_raises (items : list (string * Reader.Data)) (keys : gset string)
    (key : string) (dt : Reader.Data) :
  (key, dt) ∈ items ->
  Reader.is_special key = false ->
  ReaderMore.get_keys_items items keys = Raise (Exception "unhashable type: 'set'").
Proof.
  intros Hin Hsp. revert keys. induction items as [|[k d] items IH]; intros keys;
    [by apply elem_of_nil in Hin|].
  simpl. apply elem_of_cons in Hin as [Heq|Hin].
  - injection Heq as <- <-. by rewrite Hsp.
  - destruct (Reader.is_special k); [by apply IH|done].
Qed.

(** X16.  With a key in [extern_data] that is none of the special keys,
    [_get_keys] raises on [keys.add(keys)], whatever the options are, and
    so does the constructor of [DatasetReader], which calls it: no reader
    is made. *)
Lemma get_keys_raises_on_data_key {ndarray : Type}
    (extern_data : gmap string Reader.Data) (dataset : @Reader.Dataset ndarray)
    (coord : Coordinator) (with_seq_tag with_seq_idx with_epoch_end : bool)
    (key : string) (dt : Reader.Data) :
  extern_data !! key = Some dt ->
  Reader.is_special key = false ->
  ReaderMore.get_keys extern_data with_seq_tag with_seq_idx with_epoch_end
  = Raise (Exception "unhashable type: 'set'")
  /\ ReaderMore.init extern_data dataset coord with_seq_tag with_seq_idx with_epoch_end
     = Raise (Exception "unhashable type: 'set'").
Proof.
  intros Hkey Hsp.
  assert (Hkeys : ReaderMore.get_keys extern_data with_seq_tag with_seq_idx with_epoch_end
                  = Raise (Exception "unhashable type: 'set'")).
  { unfold ReaderMore.get_keys.
    rewrite (get_keys_items_raises _ _ key dt); [done| |done].
    by apply elem_of_map_to_list. }
  split; [done|]. unfold ReaderMore.init. by rewrite Hkeys.
Qed.

(** X16, the witness: the schema with the key ["data"]. *)
Lemma get_keys_raises_on_data_key_witness :
  ReaderMore.get_keys Examples.reader_schema false true true
  = Raise (Exception "unhashable type: 'set'")
  /\ ReaderMore.init Examples.reader_schema Examples.two_seqs Examples.fresh_coord
       false true true
     = Raise (Exception "unhashable type: 'set'").
Proof.
  apply (get_keys_raises_on_data_key Examples.reader_schema Examples.two_seqs
           Examples.fresh_coord false true true "data"
           (Reader.MkData "int32" [Some 2] "int32" [0%nat])); reflexivity.
Defined.

(** The same, for the provider. *)
Lemma init_raises_on_data_key {ndarray : Type}
    (extern_data : gmap string Reader.Data) (dataset : @Reader.Dataset ndarray)
    (coord : Coordinator) (with_seq_tag with_seq_idx with_epoch_end : bool)
    (key : string) (dt : Reader.Data) :
  extern_data !! key = Some dt ->
  Reader.is_special key = false ->
  ReaderMore.init extern_data dataset coord with_seq_tag with_seq_idx with_epoch_end
  = Raise (Exception "unhashable type: 'set'").
Proof.
  intros Hkey Hsp. unfold ReaderMore.init, ReaderMore.get_keys.
  rewrite (get_keys_items_raises _ _ key dt); [done| |done].
  by apply elem_of_map_to_list.
Qed.

(** X17.  [init_dataset] of the queue data provider never sets a reader
    when [extern_data] has a key that is none of the special keys: it
    fails on its assertion when a reader is set already, and in the
    constructor of [DatasetReader] otherwise. *)
Lemma init_dataset_raises_on_data_key {ndarray : Type}
    (extern_data : gmap string Reader.Data) (coord : Coordinator)
    (p : @QueueProvider.QueueDataProvider ndarray) (dataset : @Reader.Dataset ndarray)
    (key : string) (dt : Reader.Data) :
  extern_data !! key = Some dt ->
  Reader.is_special key = false ->
  ProviderMore.init_dataset extern_data coord p dataset
  = Raise (Exception (match QueueProvider.cur_dataset_reader p with
                      | Some _ => "assert not self.cur_dataset_reader"
                      | None => "unhashable type: 'set'"
                      end)).
Proof.
  intros Hkey Hsp. unfold ProviderMore.init_dataset.
  destruct (QueueProvider.cur_dataset_reader p); [done|].
  by rewrite (init_raises_on_data_key _ _ _ _ _ _ key dt).
Qed.

(** X17, the witness: a provider without a reader. *)
Lemma init_dataset_raises_on_data_key_witness :
  ProviderMore.init_dataset Examples.reader_schema Examples.fresh_coord
    (QueueProvider.MkQueueDataProvider QueueProvider.init_counters None None)
    Examples.two_seqs
  = Raise (Exception "unhashable type: 'set'").
Proof.
  apply (init_dataset_raises_on_data_key Examples.reader_schema Examples.fresh_coord
           (QueueProvider.MkQueueDataProvider QueueProvider.init_counters None None)
           Examples.two_seqs "data" (Reader.MkData "int32" [Some 2] "int32" [0%nat]));
    reflexivity.
Defined.

(** ** More on the feed-dict data provider *)

Section FeedDictMore.

Context {frame : Type}.
Variable zero : frame.

Local Abbreviation provider := (@FeedDict.FeedDictDataProvider frame).
Local Abbreviation buffers := (@FeedDict.buffers frame).

(** The loop of the thread when no batch fails. *)
Lemma thread_loop_enqueues (todo : list FeedDict.Batch) :
  forall (p : provider) (q : list (gmap string FeedDict.feed_value)),
  FeedDict.batches p = todo ->
  stop_event (FeedDict.coord p) = false ->
  FeedDict.queue p = Some q ->
  (forall batch calls0, batch ∈ todo ->
     snd (FeedDict.get_next_batch_buffers zero (FeedDict.dataset p) (FeedDict.data_keys p)
            batch calls0) = None) ->
  exists (items : list (gmap string FeedDict.feed_value)) (p' : provider),
    FeedDict.thread_loop zero todo p = (p', None)
    /\ FeedDict.queue p' = Some (q ++ items)
    /\ FeedDict.batches p' = []
    /\ Forall2 (fun batch args =>
                  exists calls0,
                    args = FeedDict.enqueue_args_of (FeedDict.data_keys p)
                             (fst (FeedDict.get_next_batch_buffers zero (FeedDict.dataset p)
                                     (FeedDict.data_keys p) batch calls0)))
               todo items.
Proof.
  induction todo as [|batch todo IH]; intros p q Hplan Hstop Hq Hok.
  - exists [], p. simpl. rewrite app_nil_r. repeat split; (done || constructor).
  - simpl. unfold should_stop. rewrite Hstop.
    pose proof (Hok batch (FeedDict.dataset_calls p) (list_elem_of_here _ _)) as Hb.
    destruct (FeedDict.get_next_batch_buffers zero (FeedDict.dataset p)
                (FeedDict.data_keys p) batch (FeedDict.dataset_calls p)) as [b e] eqn:Hrun.
    simpl in Hb. subst e. unfold FeedDict.put. simpl. rewrite Hq.
    destruct (IH (FeedDict.advance
       (FeedDict.MkProvider (FeedDict.coord p) (FeedDict.dataset p) (FeedDict.data_keys p)
          (FeedDict.batches p) (Some (q ++ [FeedDict.enqueue_args_of (FeedDict.data_keys p) b]))
          (FeedDict.tf_queue p) (FeedDict.thread_finished p) (FeedDict.reached_end p)
          (FeedDict.calls b) (FeedDict.reported p)))
       (q ++ [FeedDict.enqueue_args_of (FeedDict.data_keys p) b]))
      as (items & p' & Hloop & Hq' & Hplan' & Hitems).
    + simpl. by rewrite Hplan.
    + done.
    + done.
    + intros batch' calls0 Hin. simpl. apply Hok. by apply list_elem_of_further.
    + exists (FeedDict.enqueue_args_of (FeedDict.data_keys p) b :: items), p'.
      split; [done|]. split; [by rewrite Hq', <- app_assoc|]. split; [done|].
      constructor; [|done]. exists (FeedDict.dataset_calls p). by rewrite Hrun.
Qed.

(** X18.  When no stop is asked for and [get_next_batch] fails for no
    batch of the plan, the thread of the provider puts one item into the
    queue for every batch of the plan, in the order of the plan, each the
    output of [get_next_batch] for that batch; it leaves the plan used
    up, sets [reached_end] and [thread_finished], and reports no error. *)
Lemma thread_main_enqueues_every_batch (p : provider)
    (q : list (gmap string FeedDict.feed_value)) :
  stop_event (FeedDict.coord p) = false ->
  FeedDict.queue p = Some q ->
  (forall batch calls0, batch ∈ FeedDict.batches p ->
     snd (FeedDict.get_next_batch_buffers zero (FeedDict.dataset p) (FeedDict.data_keys p)
            batch calls0) = None) ->
  exists items : list (gmap string FeedDict.feed_value),
    FeedDict.queue (FeedDict.thread_main zero p) = Some (q ++ items)
    /\ Forall2 (fun batch args =>
                  exists calls0,
                    args = FeedDict.enqueue_args_of (FeedDict.data_keys p)
                             (fst (FeedDict.get_next_batch_buffers zero (FeedDict.dataset p)
                                     (FeedDict.data_keys p) batch calls0)))
               (FeedDict.batches p) items
    /\ FeedDict.batches (FeedDict.thread_main zero p) = []
    /\ FeedDict.reached_end (FeedDict.thread_main zero p) = true
    /\ FeedDict.thread_finished (FeedDict.thread_main zero p) = true
    /\ FeedDict.reported (FeedDict.thread_main zero p) = FeedDict.reported p.
Proof.
  intros Hstop Hq Hok.
  destruct (thread_loop_enqueues (FeedDict.batches p) p q eq_refl Hstop Hq Hok)
    as (items & p' & Hloop & Hq' & Hplan' & Hitems).
  pose proof (thread_loop_keeps zero (FeedDict.batches p) p) as Hkeep.
  exists items. unfold FeedDict.thread_main. rewrite Hloop in *. simpl in *.
  unfold FeedDict.has_more. rewrite Hplan'. simpl.
  destruct Hkeep as (_ & -> & _ & _). done.
Qed.

(** The lengths in [seq_lens] never go down, and an entry with frames of
    a key raises the length of its slice to its end. *)
Lemma copy_key_lens (ds : FeedDict.Dataset) (seq : FeedDict.BatchSeq) (k : string)
    (b b' : buffers) :
  FeedDict.copy_key ds seq k b = (b', None) ->
  (forall k' q' n, FeedDict.seq_lens_slice b k' q' = Some n ->
     exists n', FeedDict.seq_lens_slice b' k' q' = Some n' /\ (n <= n')%nat)
  /\ (FeedDict.frame_length seq k <> 0%nat ->
      exists n, FeedDict.seq_lens_slice b' k (FeedDict.batch_slice seq) = Some n
                /\ (FeedDict.batch_frame_offset seq k + FeedDict.frame_length seq k <= n)%nat).
Proof.
  unfold FeedDict.copy_key. simpl.
  destruct (Nat.eqb_spec (FeedDict.frame_length seq k) 0) as [Hl|Hl].
  { intros [= <-]. split; [|done]. intros k' q' n Hn. exists n. by split. }
  destruct (FeedDict.get_data_slice _ _ _ _ _) as [v|e]; [|done].
  destruct (Nat.eqb_spec (length v) (FeedDict.frame_length seq k)) as [Hv|Hv]; [|done].
  simpl.
  destruct (FeedDict.data b !! k) as [arr|] eqn:Harr; [|done].
  destruct (FeedDict.seq_lens b !! k) as [lens|] eqn:Hlens; [|done].
  destruct (FeedDict.assign_slice _ _ _ _) as [arr'|e]; [|done].
  destruct (lens !! FeedDict.batch_slice seq) as [cur|] eqn:Hcur; [|done].
  intros [= <-]. unfold FeedDict.seq_lens_slice. simpl.
  pose proof (lookup_lt_Some _ _ _ Hcur) as Hlt.
  split.
  - intros k' q' n Hn. destruct (decide (k' = k)) as [->|Hk].
    + rewrite lookup_insert_eq. rewrite Hlens in Hn. simpl in *.
      destruct (decide (q' = FeedDict.batch_slice seq)) as [->|Hq].
      * rewrite list_lookup_insert_eq by done. rewrite Hcur in Hn. injection Hn as <-.
        eexists. split; [done|]. lia.
      * rewrite list_lookup_insert_ne by done. exists n. by split.
    + rewrite lookup_insert_ne by done. exists n. by split.
  - intros _. rewrite lookup_insert_eq. simpl.
    rewrite list_lookup_insert_eq by done. eexists. split; [done|]. lia.
Qed.

Lemma copy_keys_lens (ds : FeedDict.Dataset) (seq : FeedDict.BatchSeq)
    (keys : list string) (b b' : buffers) :
  FeedDict.copy_keys ds seq keys b = (b', None) ->
  (forall k' q' n, FeedDict.seq_lens_slice b k' q' = Some n ->
     exists n', FeedDict.seq_lens_slice b' k' q' = Some n' /\ (n <= n')%nat)
  /\ (forall k, k ∈ keys -> FeedDict.frame_length seq k <> 0%nat ->
      exists n, FeedDict.seq_lens_slice b' k (FeedDict.batch_slice seq) = Some n
                /\ (FeedDict.batch_frame_offset seq k + FeedDict.frame_length seq k <= n)%nat).
Proof.
  revert b. induction keys as [|k0 keys IH]; intros b; simpl.
  - intros [= <-]. split; [|by intros k Hin%elem_of_nil].
    intros k' q' n Hn. exists n. by split.
  - destruct (FeedDict.copy_key ds seq k0 b) as [b1 [e|]] eqn:Hk; [done|].
    intros Hrest. apply copy_key_lens in Hk as [Hmono1 Hset1].
    apply IH in Hrest as [Hmono2 Hset2]. split.
    + intros k' q' n Hn. destruct (Hmono1 _ _ _ Hn) as (n1 & Hn1 & Hle1).
      destruct (Hmono2 _ _ _ Hn1) as (n2 & Hn2 & Hle2). exists n2. split; [done|lia].
    + intros k Hin Hl. apply elem_of_cons in Hin as [->|Hin]; [|by apply Hset2].
      destruct (Hset1 Hl) as (n1 & Hn1 & Hle1).
      destruct (Hmono2 _ _ _ Hn1) as (n2 & Hn2 & Hle2). exists n2. split; [done|lia].
Qed.

Lemma copy_seqs_lens (ds : FeedDict.Dataset) (keys : list string)
    (ss : list FeedDict.BatchSeq) (b b' : buffers) :
  FeedDict.copy_seqs ds keys ss b = (b', None) ->
  (forall k' q' n, FeedDict.seq_lens_slice b k' q' = Some n ->
     exists n', FeedDict.seq_lens_slice b' k' q' = Some n' /\ (n <= n')%nat)
  /\ (forall seq k, seq ∈ ss -> k ∈ keys -> FeedDict.frame_length seq k <> 0%nat ->
      exists n, FeedDict.seq_lens_slice b' k (FeedDict.batch_slice seq) = Some n
                /\ (FeedDict.batch_frame_offset seq k + FeedDict.frame_length seq k <= n)%nat).
Proof.
  revert b. induction ss as [|seq0 ss IH]; intros b; simpl.
  - intros [= <-]. split; [|by intros seq k Hin%elem_of_nil].
    intros k' q' n Hn. exists n. by split.
  - destruct (FeedDict.copy_keys ds seq0 keys b) as [b1 [e|]] eqn:Hseq; [done|].
    intros Hrest. apply copy_keys_lens in Hseq as [Hmono1 Hset1].
    apply IH in Hrest as [Hmono2 Hset2]. split.
    + intros k' q' n Hn. destruct (Hmono1 _ _ _ Hn) as (n1 & Hn1 & Hle1).
      destruct (Hmono2 _ _ _ Hn1) as (n2 & Hn2 & Hle2). exists n2. split; [done|lia].
    + intros seq k Hin Hk Hl. apply elem_of_cons in Hin as [->|Hin]; [|by apply Hset2].
      destruct (Hset1 k Hk Hl) as (n1 & Hn1 & Hle1).
      destruct (Hmono2 _ _ _ Hn1) as (n2 & Hn2 & Hle2). exists n2. split; [done|lia].
Qed.

(** X19.  When [_get_next_batch] returns, the length that [seq_lens]
    holds for a key and a slice reaches the end of every entry of the batch
    that has frames of that key in that slice:
    [seq_lens[k][q] >= o[k] + l[k]]. *)
Lemma seq_lens_cover_entries (ds : FeedDict.Dataset) (keys : list string)
    (batch : FeedDict.Batch) (calls0 : list FeedDict.call) (b : buffers)
    (seq : FeedDict.BatchSeq) (k : string) :
  FeedDict.get_next_batch_buffers zero ds keys batch calls0 = (b, None) ->
  seq ∈ FeedDict.seqs batch ->
  k ∈ keys ->
  FeedDict.frame_length seq k <> 0%nat ->
  exists n, FeedDict.seq_lens_slice b k (FeedDict.batch_slice seq) = Some n
            /\ (FeedDict.batch_frame_offset seq k + FeedDict.frame_length seq k <= n)%nat.
Proof.
  unfold FeedDict.get_next_batch_buffers. intros Hrun Hseq Hk Hl.
  apply copy_seqs_lens in Hrun as [_ Hset]. by apply Hset.
Qed.

(** The keys of the two dictionaries stay those of the zero
    initialisation. *)
Lemma copy_key_dom (ds : FeedDict.Dataset) (seq : FeedDict.BatchSeq) (k : string)
    (b b' : buffers) :
  FeedDict.copy_key ds seq k b = (b', None) ->
  forall k', (is_Some (FeedDict.data b' !! k') <-> is_Some (FeedDict.data b !! k'))
             /\ (is_Some (FeedDict.seq_lens b' !! k') <-> is_Some (FeedDict.seq_lens b !! k')).
Proof.
  unfold FeedDict.copy_key. simpl.
  destruct (Nat.eqb (FeedDict.frame_length seq k) 0); [by intros [= <-]|].
  destruct (FeedDict.get_data_slice _ _ _ _ _) as [v|e]; [|done].
  destruct (negb _); [done|].
  destruct (FeedDict.data b !! k) as [arr|] eqn:Harr; [|done].
  destruct (FeedDict.seq_lens b !! k) as [lens|] eqn:Hlens; [|done].
  destruct (FeedDict.assign_slice _ _ _ _) as [arr'|e]; [|done].
  destruct (lens !! FeedDict.batch_slice seq) as [cur|]; [|done].
  intros [= <-] k'. simpl. destruct (decide (k' = k)) as [->|Hk].
  - rewrite !lookup_insert_eq, Harr, Hlens. split; split; eauto.
  - by rewrite !lookup_insert_ne.
Qed.

Lemma copy_keys_dom (ds : FeedDict.Dataset) (seq : FeedDict.BatchSeq)
    (keys : list string) (b b' : buffers) :
  FeedDict.copy_keys ds seq keys b = (b', None) ->
  forall k', (is_Some (FeedDict.data b' !! k') <-> is_Some (FeedDict.data b !! k'))
             /\ (is_Some (FeedDict.seq_lens b' !! k') <-> is_Some (FeedDict.seq_lens b !! k')).
Proof.
  revert b. induction keys as [|k0 keys IH]; intros b; simpl; [by intros [= <-]|].
  destruct (FeedDict.copy_key ds seq k0 b) as [b1 [e|]] eqn:Hk; [done|].
  intros Hrest k'. destruct (copy_key_dom _ _ _ _ _ Hk k') as [H1 H2].
  destruct (IH _ Hrest k') as [H3 H4]. split; etrans; done.
Qed.

Lemma copy_seqs_dom (ds : FeedDict.Dataset) (keys : list string)
    (ss : list FeedDict.BatchSeq) (b b' : buffers) :
  FeedDict.copy_seqs ds keys ss b = (b', None) ->
  forall k', (is_Some (FeedDict.data b' !! k') <-> is_Some (FeedDict.data b !! k'))
             /\ (is_Some (FeedDict.seq_lens b' !! k') <-> is_Some (FeedDict.seq_lens b !! k')).
Proof.
  revert b. induction ss as [|seq0 ss IH]; intros b; simpl; [by intros [= <-]|].
  destruct (FeedDict.copy_keys ds seq0 keys b) as [b1 [e|]] eqn:Hseq; [done|].
  intros Hrest k'. destruct (copy_keys_dom _ _ _ _ _ Hseq k') as [H1 H2].
  destruct (IH _ Hrest k') as [H3 H4]. split; etrans; done.
Qed.

Lemma zeros_data_lookup_None (ds : FeedDict.Dataset) (batch : FeedDict.Batch)
    (keys : list string) (k : string) :
  k ∉ keys -> FeedDict.zeros_data zero ds batch keys !! k = None.
Proof.
  induction keys as [|k0 keys IH]; intros Hin; simpl; [done|].
  apply not_elem_of_cons in Hin as [Hne Hin]. rewrite lookup_insert_ne by done. by apply IH.
Qed.

Lemma seq_lens_key_inj (k1 k2 : string) :
  FeedDict.seq_lens_key k1 = FeedDict.seq_lens_key k2 -> k1 = k2.
Proof. apply string_app_inv_tail. Qed.

(** What the loop of [get_next_batch] leaves under a key. *)
Lemma enqueue_args_fold_other (keys : list string) (b : buffers)
    (m : gmap string FeedDict.feed_value) (x : string) :
  (forall k', k' ∈ keys -> FeedDict.seq_lens_key k' <> x) ->
  foldl (fun (m : gmap string FeedDict.feed_value) (k : string) =>
           match FeedDict.data b !! k, FeedDict.seq_lens b !! k with
           | Some _, Some lens =>
               <[FeedDict.seq_lens_key k := @FeedDict.FeedLens frame lens]> m
           | _, _ => m
           end) m keys !! x = m !! x.
Proof.
  revert m. induction keys as [|k0 keys IH]; intros m Hne; simpl; [done|].
  rewrite IH by (intros k' Hin; apply Hne; by apply list_elem_of_further).
  destruct (FeedDict.data b !! k0), (FeedDict.seq_lens b !! k0); try done.
  apply lookup_insert_ne. apply Hne. apply list_elem_of_here.
Qed.

Lemma enqueue_args_fold_lens (keys : list string) (b : buffers)
    (m : gmap string FeedDict.feed_value) (k : string)
    (arr : list (list frame)) (lens : list nat) :
  FeedDict.data b !! k = Some arr ->
  FeedDict.seq_lens b !! k = Some lens ->
  k ∈ keys \/ m !! FeedDict.seq_lens_key k = Some (FeedDict.FeedLens lens) ->
  foldl (fun (m : gmap string FeedDict.feed_value) (k : string) =>
           match FeedDict.data b !! k, FeedDict.seq_lens b !! k with
           | Some _, Some lens =>
               <[FeedDict.seq_lens_key k := @FeedDict.FeedLens frame lens]> m
           | _, _ => m
           end) m keys !! FeedDict.seq_lens_key k
  = Some (FeedDict.FeedLens lens).
Proof.
  intros Harr Hlens. revert m. induction keys as [|k0 keys IH]; intros m Hin; simpl.
  - destruct Hin as [Hin%elem_of_nil|Hm]; done.
  - apply IH. destruct (decide (k0 = k)) as [->|Hne].
    + right. rewrite Harr, Hlens. by rewrite lookup_insert_eq.
    + destruct Hin as [Hin|Hm].
      * left. by apply elem_of_cons in Hin as [->|Hin].
      * right. destruct (FeedDict.data b !! k0), (FeedDict.seq_lens b !! k0); try done.
        rewrite lookup_insert_ne; [done|]. intros Heq. by apply seq_lens_key_inj in Heq.
Qed.

(** X20.  When no data key is the name [<k>_seq_lens] of another data
    key, what [get_next_batch] returns holds, for every data key [k], the
    batch array under [k] and the lengths under [<k>_seq_lens]. *)
Lemma get_next_batch_entries (ds : FeedDict.Dataset) (keys : list string)
    (batch : FeedDict.Batch) (calls0 : list FeedDict.call) (b : buffers) (k : string) :
  FeedDict.get_next_batch_buffers zero ds keys batch calls0 = (b, None) ->
  (forall k1, k1 ∈ keys -> FeedDict.seq_lens_key k1 ∉ keys) ->
  k ∈ keys ->
  exists (arr : list (list frame)) (lens : list nat),
    FeedDict.data b !! k = Some arr
    /\ FeedDict.seq_lens b !! k = Some lens
    /\ FeedDict.enqueue_args_of keys b !! k = Some (FeedDict.FeedArray arr)
    /\ FeedDict.enqueue_args_of keys b !! FeedDict.seq_lens_key k
       = Some (FeedDict.FeedLens lens).
Proof.
  unfold FeedDict.get_next_batch_buffers. intros Hrun Hnames Hk.
  pose proof (copy_seqs_dom _ _ _ _ _ Hrun) as Hdom. simpl in Hdom.
  destruct (proj2 (proj1 (Hdom k))) as [arr Harr].
  { rewrite zeros_data_lookup by done. eauto. }
  destruct (proj2 (proj2 (Hdom k))) as [lens Hlens].
  { rewrite zeros_seq_lens_lookup by done. eauto. }
  exists arr, lens. split; [done|]. split; [done|]. unfold FeedDict.enqueue_args_of. split.
  - rewrite enqueue_args_fold_other.
    + by rewrite lookup_fmap, Harr.
    + intros k' Hin Heq. apply (Hnames k' Hin). by rewrite Heq.
  - apply (enqueue_args_fold_lens _ _ _ _ arr); [done..|]. by left.
Qed.

End FeedDictMore.

(** X18, the witness: the provider with the one batch of two entries. *)
Lemma thread_main_enqueues_every_batch_witness :
  exists items : list (gmap string FeedDict.feed_value),
    FeedDict.queue (FeedDict.thread_main 0 (Examples.provider_of Examples.sevens))
    = Some ([] ++ items)
    /\ Forall2 (fun batch args =>
                  exists calls0,
                    args = FeedDict.enqueue_args_of
                             (FeedDict.data_keys (Examples.provider_of Examples.sevens))
                             (fst (FeedDict.get_next_batch_buffers 0
                                     (FeedDict.dataset (Examples.provider_of Examples.sevens))
                                     (FeedDict.data_keys (Examples.provider_of Examples.sevens))
                                     batch calls0)))
               (FeedDict.batches (Examples.provider_of Examples.sevens)) items
    /\ FeedDict.batches (FeedDict.thread_main 0 (Examples.provider_of Examples.sevens)) = []
    /\ FeedDict.reached_end (FeedDict.thread_main 0 (Examples.provider_of Examples.sevens))
       = true
    /\ FeedDict.thread_finished (FeedDict.thread_main 0 (Examples.provider_of Examples.sevens))
       = true
    /\ FeedDict.reported (FeedDict.thread_main 0 (Examples.provider_of Examples.sevens))
       = FeedDict.reported (Examples.provider_of Examples.sevens).
Proof.
  apply (thread_main_enqueues_every_batch 0 (Examples.provider_of Examples.sevens) []).
  - reflexivity.
  - reflexivity.
  - intros batch calls0 Hin. apply list_elem_of_singleton in Hin. subst batch.
    reflexivity.
Defined.

(** X19, the witness: the second entry of that batch, whose three frames
    of ["data"] lie behind the two of the first entry. *)
Lemma seq_lens_cover_entries_witness :
  exists n : nat,
    FeedDict.seq_lens_slice
      (fst (FeedDict.get_next_batch_buffers 0 Examples.sevens ["classes"; "data"]%string
              Examples.shared_slice_batch []))
      "data" (FeedDict.batch_slice Examples.second_entry) = Some n
    /\ (FeedDict.batch_frame_offset Examples.second_entry "data"
        + FeedDict.frame_length Examples.second_entry "data" <= n)%nat.
Proof.
  apply (seq_lens_cover_entries 0 Examples.sevens ["classes"; "data"]%string
           Examples.shared_slice_batch []).
  - vm_compute. reflexivity.
  - apply list_elem_of_further, list_elem_of_here.
  - apply list_elem_of_further, list_elem_of_here.
  - vm_compute. discriminate.
Defined.

(** X20, the witness: the key ["classes"] of that batch. *)
Lemma get_next_batch_entries_witness :
  exists (arr : list (list Z)) (lens : list nat),
    FeedDict.data (fst (FeedDict.get_next_batch_buffers 0 Examples.sevens
                          ["classes"; "data"]%string Examples.shared_slice_batch []))
      !! "classes"%string = Some arr
    /\ FeedDict.seq_lens (fst (FeedDict.get_next_batch_buffers 0 Examples.sevens
                                 ["classes"; "data"]%string Examples.shared_slice_batch []))
         !! "classes"%string = Some lens
    /\ FeedDict.enqueue_args_of ["classes"; "data"]%string
         (fst (FeedDict.get_next_batch_buffers 0 Examples.sevens
                 ["classes"; "data"]%string Examples.shared_slice_batch []))
         !! "classes"%string = Some (FeedDict.FeedArray arr)
    /\ FeedDict.enqueue_args_of ["classes"; "data"]%string
         (fst (FeedDict.get_next_batch_buffers 0 Examples.sevens
                 ["classes"; "data"]%string Examples.shared_slice_batch []))
         !! FeedDict.seq_lens_key "classes" = Some (FeedDict.FeedLens lens).
Proof.
  apply (get_next_batch_entries 0 Examples.sevens ["classes"; "data"]%string
           Examples.shared_slice_batch []).
  - vm_compute. reflexivity.
  - intros k1 Hin. rewrite !elem_of_cons, elem_of_nil in Hin.
    destruct Hin as [->|[->|[]]]; apply (bool_decide_unpack _); vm_compute; exact I.
  - apply list_elem_of_here.
Defined.

(** ** The data queues *)

Section DataQueuesFacts.

Context {T : Type}.

Lemma lookup_all_Forall2 (x : gmap string T) (keys : list string) :
  (forall key, key ∈ keys -> is_Some (x !! key)) ->
  exists xs, DataQueues.lookup_all x keys = Ok xs
             /\ Forall2 (fun key v => x !! key = Some v) keys xs.
Proof.
  induction keys as [|key keys IH]; intros Hin; simpl.
  - exists []. split; [done|constructor].
  - destruct (Hin key (list_elem_of_here _ _)) as [v Hv]. rewrite Hv.
    destruct IH as (xs & -> & Hxs).
    { intros key' Hin'. apply Hin. by apply list_elem_of_further. }
    exists (v :: xs). split; [done|]. by constructor.
Qed.

(** Lists are turned into records and back without loss when the names
    are those of the record, each once. *)
Lemma as_dict_as_list (names : list string) (x : gmap string T) :
  NoDup names ->
  dom x = list_to_set names ->
  exists xs, DataQueues.as_list names x = Ok xs
             /\ length xs = length names
             /\ DataQueues.as_dict names xs = Ok x.
Proof.
  intros Hnd Hdom.
  assert (Hsize : size x = length names).
  { by rewrite <- size_dom, Hdom, size_list_to_set. }
  destruct (lookup_all_Forall2 x names) as (xs & Hall & Hxs).
  { intros key Hin. apply elem_of_dom. rewrite Hdom. by apply elem_of_list_to_set. }
  pose proof (Forall2_length _ _ _ Hxs) as Hlen.
  exists xs. unfold DataQueues.as_list, DataQueues.as_dict.
  rewrite Hsize, <- Hlen, !Nat.eqb_refl. simpl. split; [done|]. split; [done|].
  f_equal. apply map_eq. intros key.
  assert (Hfst : (reverse (zip names xs)).*1 = reverse names).
  { rewrite fmap_reverse, fst_zip; [done|lia]. }
  destruct (decide (key ∈ names)) as [Hin|Hin].
  - apply list_elem_of_lookup in Hin as [i Hi].
    destruct (Forall2_lookup_l _ _ _ _ _ Hxs Hi) as (v & Hv & Hkey).
    rewrite Hkey. apply elem_of_list_to_map_1.
    + rewrite Hfst. by rewrite reverse_Permutation.
    + apply elem_of_reverse. apply list_elem_of_lookup. exists i.
      rewrite lookup_zip_with, Hi. simpl. by rewrite Hv.
  - rewrite (not_elem_of_list_to_map_1 _ key).
    + symmetry. apply not_elem_of_dom. rewrite Hdom. by rewrite elem_of_list_to_set.
    + rewrite Hfst. by rewrite elem_of_reverse.
Qed.

End DataQueuesFacts.

(** The names of the constructor are all different when no data key has
    ["/size"] in it. *)
Lemma elem_of_size_names (items : list (string * Reader.Data)) (name : string) :
  name ∈ DataQueues.size_names items
  <-> exists key dt axis, (key, dt) ∈ items /\ axis ∈ Reader.axes_with_size dt
                          /\ name = Reader.size_key key axis.
Proof.
  unfold DataQueues.size_names. rewrite list_elem_of_bind. split.
  - intros ([key dt] & Hname & Hin). apply list_elem_of_fmap in Hname as (axis & -> & Hax).
    by exists key, dt, axis.
  - intros (key & dt & axis & Hin & Hax & ->). exists (key, dt). split; [|done].
    apply list_elem_of_fmap. by exists axis.
Qed.

Lemma init_names_NoDup (extern_data : gmap string Reader.Data) (enqueue_data : bool) :
  (forall key dt, extern_data !! key = Some dt ->
     str_in "/size" key = false /\ NoDup (Reader.axes_with_size dt)) ->
  NoDup (DataQueues.init_names extern_data enqueue_data).
Proof.
  intros Hkeys. unfold DataQueues.init_names.
  pose proof (NoDup_fst_map_to_list extern_data) as Hnd.
  destruct enqueue_data; [done|]. apply NoDup_app. split; [done|]. split.
  - intros name Hname Hsize. apply list_elem_of_fmap in Hname as ([key dt] & -> & Hin).
    apply elem_of_map_to_list in Hin. destruct (Hkeys _ _ Hin) as [Hkey _]. simpl in *.
    apply elem_of_size_names in Hsize as (key' & dt' & axis & _ & _ & ->).
    by rewrite str_in_size_key in Hkey.
  - unfold DataQueues.size_names. apply NoDup_bind.
    + intros [k1 d1] [k2 d2] name Hin1 Hin2 Hn1 Hn2.
      apply elem_of_map_to_list in Hin1, Hin2.
      apply list_elem_of_fmap in Hn1 as (a1 & -> & _).
      apply list_elem_of_fmap in Hn2 as (a2 & Heq & _). simpl in *.
      apply size_key_inj in Heq as [-> _];
        [|by apply (Hkeys _ _ Hin1)|by apply (Hkeys _ _ Hin2)].
      rewrite Hin1 in Hin2. by injection Hin2 as ->.
    + intros [key dt] Hin%elem_of_map_to_list. simpl.
      destruct (Hkeys _ _ Hin) as [Hkey Haxes].
      apply NoDup_fmap_2_strong; [|done].
      intros a1 a2 _ _ Heq. by apply size_key_inj in Heq as [_ ->].
    + apply NoDup_map_to_list.
Qed.

(** X21.  When no data key has ["/size"] in its name, the names that the
    constructor of [TFDataQueues] makes are all different, and the dequeue
    op hands out the record that the queue chosen by the train flag gave,
    unchanged, as long as that record has exactly these names as its
    keys. *)
Lemma dequeue_op_round_trip {T : Type} (extern_data : gmap string Reader.Data)
    (train_flag : bool) (train_item eval_item : gmap string T) :
  (forall key dt, extern_data !! key = Some dt ->
     str_in "/size" key = false /\ NoDup (Reader.axes_with_size dt)) ->
  dom (if train_flag then train_item else eval_item)
  = list_to_set (DataQueues.init_names extern_data false) ->
  NoDup (DataQueues.init_names extern_data false)
  /\ DataQueues.make_dequeue_op (DataQueues.init_names extern_data false)
       train_flag train_item eval_item
     = Ok (if train_flag then train_item else eval_item).
Proof.
  intros Hkeys Hdom. pose proof (init_names_NoDup extern_data false Hkeys) as Hnd.
  split; [done|]. unfold DataQueues.make_dequeue_op.
  destruct (as_dict_as_list _ _ Hnd Hdom) as (xs & Hlist & _ & Hdict).
  destruct train_flag; by rewrite Hlist.
Qed.

(** X21, the witness: the schema with the key ["data"], and a record of
    the eval queue. *)
Lemma dequeue_op_round_trip_witness :
  NoDup (DataQueues.init_names Examples.reader_schema false)
  /\ DataQueues.make_dequeue_op (DataQueues.init_names Examples.reader_schema false)
       false (∅ : gmap string Z) {[ "data"%string := 1; "data/size0"%string := 2 ]}
     = Ok (if false then (∅ : gmap string Z)
           else {[ "data"%string := 1; "data/size0"%string := 2 ]}).
Proof.
  apply (dequeue_op_round_trip Examples.reader_schema false ∅
           {[ "data"%string := 1; "data/size0"%string := 2 ]}).
  - intros key dt Hkey. unfold Examples.reader_schema in Hkey.
    apply lookup_singleton_Some in Hkey as [<- <-]. split; [reflexivity|].
    apply NoDup_singleton.
  - vm_compute. reflexivity.
Defined.
